(** * The peer-to-peer network layer of go-blockchain-app

    A shallow embedding of package [network]: the message framing,
    the mempool manager, the node (peer) manager, the sync manager and
    the protocol handlers, followed by the properties C1..C10 of the
    specification.

    Conventions of the embedding.
    - Go [int] is the 64-bit integer; values are kept in [Z], and the
      places where the source truncates ([byte(n >> 24)], [int32(h)])
      are written out.
    - A Go [map] is a [gmap]; where the outcome of a [range] over a map
      depends on the order the runtime picked, that order is an explicit
      argument of the function.
    - [time.Now()] is an argument of the operation that reads the clock;
      instants are integers (nanoseconds) and [Before] is [<].
    - A call either returns or panics ([log.Panic], an index or slice
      expression out of range).  Nothing in the package recovers, so a
      panic ends the process: [Panicked] carries the state left behind.
    - Outbound traffic is recorded as a list of events, one per call of
      [Server.SendMessage], [Server.BroadcastMessage] and
      [Server.ConnectToPeer]; the payload is the struct handed to
      [GobEncode]. *)

From Stdlib Require Import ZArith List String Ascii Strings.Byte Lia Permutation.
From stdpp Require Import base option list strings gmap fin_maps.

Local Open Scope string_scope.
Local Open Scope list_scope.
Local Open Scope Z_scope.

(** ** Go values shared by the whole package *)

Module Go.

(** What a call does: it returns a value, or it panics. *)
Inductive Exit (A : Type) : Type :=
| Returned (a : A)
| Panicked (why : string).
Arguments Returned {A} a.
Arguments Panicked {A} why.

(** The [error] values the package produces. *)
Inductive error : Type :=
| io_EOF
| io_ErrUnexpectedEOF
| ErrDuplicateTransaction (txID : string)
| ErrInvalidTransactionID
| ErrSerializationFailed
| ErrConnectToSelf
| ErrAlreadyConnected (address : string)
| ErrMaxPeers (limit : Z)
| ErrConnectFailed (address : string).

(** [byte(n)]: the low eight bits of an integer. *)
Definition byte_of_Z (n : Z) : byte :=
  default x00 (Byte.of_N (Z.to_N (n mod 256))).

(** [int(b)] *)
Definition Z_of_byte (b : byte) : Z := Z.of_N (Byte.to_N b).

(** [int32(n)] on a 64-bit [int]: two's complement truncation. *)
Definition int32 (n : Z) : Z := (n + 2 ^ 31) mod 2 ^ 32 - 2 ^ 31.

Definition hex_digit (n : N) : ascii :=
  match n with
  | 0 => "0" | 1 => "1" | 2 => "2" | 3 => "3" | 4 => "4" | 5 => "5"
  | 6 => "6" | 7 => "7" | 8 => "8" | 9 => "9" | 10 => "a" | 11 => "b"
  | 12 => "c" | 13 => "d" | 14 => "e" | _ => "f"
  end%N%char.

(** [fmt.Sprintf("%x", bs)] for a byte slice: two lower-case digits a
    byte. *)
Fixpoint sprintf_x (bs : list byte) : string :=
  match bs with
  | [] => EmptyString
  | b :: rest =>
      String (hex_digit (Byte.to_N b / 16))
        (String (hex_digit (Byte.to_N b mod 16)) (sprintf_x rest))
  end.

(** [s[:n]] panics when [n] exceeds [len(s)]. *)
Definition slice_prefix_ok (s : string) (n : nat) : bool :=
  (n <=? String.length s)%nat.

(** The two collaborator methods of [TransactionInterface]. *)
Record TransactionInterface : Type := {
  GetID : list byte;
  Serialize : list byte
}.

(** [time.Hour] and [time.Minute], in nanoseconds. *)
Definition hour : Z := 3600 * 1000000000.
Definition minute : Z := 60 * 1000000000.

#[global] Instance byte_eq_decision : EqDecision byte := Byte.byte_eq_dec.

(** [len(x)] as a Go [int]. *)
Definition len {A} (l : list A) : Z := Z.of_nat (length l).

End Go.
Export Go.

(** ** Commands, payloads and framing (network/handlers.go) *)

Module Protocol.

Definition CmdVersion := "version".
Definition CmdGetBlocks := "getblocks".
Definition CmdInv := "inv".
Definition CmdGetData := "getdata".
Definition CmdPing := "ping".


Record Message : Type := {
  Command : string;
  Data : list byte
}.

Record VersionData : Type := {
  Version : Z;
  BestHeight : Z;
  vAddrFrom : string
}.

Record GetBlocksData : Type := { gbAddrFrom : string }.

Record InvData : Type := {
  iAddrFrom : string;
  iType : string;
  Items : list (list byte)
}.

Record GetDataData : Type := {
  gdAddrFrom : string;
  gdType : string;
  ID : list byte
}.

Record PingData : Type := { pAddrFrom : string }.

(** The struct a sender hands to [GobEncode]. *)
Inductive Payload : Type :=
| PVersion (d : VersionData)
| PGetBlocks (d : GetBlocksData)
| PInv (d : InvData)
| PGetData (d : GetDataData)
| PPing (d : PingData).

(** One call of an outbound primitive of [Server]. *)
Inductive Event : Type :=
| SendMessage (address : string) (command : string) (payload : Payload)
| BroadcastMessage (command : string) (payload : Payload)
| ServerConnectToPeer (address : string).

(** [encoding/gob] is a library outside the repository.  It enters the
    model as a pair of functions on [Message]: [gob_encode] is what a
    fresh [gob.Encoder] writes for the value, [gob_decode] what a fresh
    [gob.Decoder] reads, [None] standing for every error [Decode]
    returns. *)
Record GobCodec : Type := {
  gob_encode : Message -> list byte;
  gob_decode : list byte -> option Message
}.

(** What the model assumes of the library: a value written by an
    encoder is read back by a decoder, and a decoder on an empty input
    reports [io.EOF]. *)
Record GobLaws (G : GobCodec) : Prop := {
  gob_round_trip : forall m, gob_decode G (gob_encode G m) = Some m;
  gob_decode_empty : gob_decode G [] = None
}.

(** [IntToBytes] *)
Definition IntToBytes (n : Z) : list byte :=
  [byte_of_Z (Z.shiftr n 24); byte_of_Z (Z.shiftr n 16);
   byte_of_Z (Z.shiftr n 8); byte_of_Z n].

(** [BytesToInt]; indexing a slice shorter than four bytes panics. *)
Definition BytesToInt (b : list byte) : Exit Z :=
  match b with
  | b0 :: b1 :: b2 :: b3 :: _ =>
      Returned
        (Z.lor (Z.lor (Z.lor (Z.shiftl (Z_of_byte b0) 24)
                             (Z.shiftl (Z_of_byte b1) 16))
                      (Z.shiftl (Z_of_byte b2) 8))
               (Z_of_byte b3))
  | _ => Panicked "index out of range"
  end.

(** [io.ReadFull(r, buf)] with [len(buf) = n], on a reader that will
    deliver the bytes [r] and then end: the bytes read and the rest of
    the stream, or the error and a drained reader. *)
Definition ReadFull (r : list byte) (n : Z)
  : (list byte * list byte) + error :=
  if n <=? len r then inl (take (Z.to_nat n) r, drop (Z.to_nat n) r)
  else match r with
       | [] => inr io_EOF
       | _ => inr io_ErrUnexpectedEOF
       end.

Section WithGob.
Context (G : GobCodec).


(** [DeserializeMessage] *)
Definition DeserializeMessage (data : list byte) : Exit Message :=
  match gob_decode G data with
  | Some msg => Returned msg
  | None => Panicked "gob: decode error"
  end.

(** [ReadMessage]: the [(Message, error)] pair is [inl]/[inr]; the
    second component is what is left of the stream. *)
Definition ReadMessage (r : list byte)
  : Exit (Message + error) * list byte :=
  match ReadFull r 4 with
  | inr err => (Returned (inr err), [])
  | inl (lengthBytes, r1) =>
      match BytesToInt lengthBytes with
      | Panicked why => (Panicked why, r1)
      | Returned length =>
          match ReadFull r1 length with
          | inr err => (Returned (inr err), [])
          | inl (msgBytes, r2) =>
              match DeserializeMessage msgBytes with
              | Returned msg => (Returned (inl msg), r2)
              | Panicked why => (Panicked why, r2)
              end
          end
      end
  end.


End WithGob.

(** A small codec that meets [GobLaws]: every character of the
    command after a byte 1, a byte 0, then the payload.  It is not
    gob's wire format; it shows that the laws have a model and lets
    the examples run. *)
Fixpoint plain_encode_command (s : string) (data : list byte)
  : list byte :=
  match s with
  | EmptyString => x00 :: data
  | String c s' => x01 :: byte_of_ascii c :: plain_encode_command s' data
  end.

Definition plain_encode (m : Message) : list byte :=
  plain_encode_command (Command m) (Data m).

Fixpoint plain_decode (bs : list byte) : option Message :=
  match bs with
  | [] => None
  | tag :: rest =>
      if Byte.eqb tag x00 then Some {| Command := ""; Data := rest |}
      else if Byte.eqb tag x01 then
        match rest with
        | [] => None
        | c :: rest' =>
            match plain_decode rest' with
            | Some m =>
                Some {| Command := String (ascii_of_byte c) (Command m);
                        Data := Data m |}
            | None => None
            end
        end
      else None
  end.

Definition plain_codec : GobCodec :=
  {| gob_encode := plain_encode; gob_decode := plain_decode |}.

End Protocol.

(** ** Calls as state transformers *)

Module Eff.

(** The result of running a method body on a state: how it ended, the
    state it left, the outbound calls it made. *)
Record Run (S A : Type) : Type := {
  exit : Exit A;
  state : S;
  events : list Protocol.Event
}.
Arguments exit {S A} _.
Arguments state {S A} _.
Arguments events {S A} _.

Definition M (S A : Type) : Type := S -> Run S A.

Definition ret {S A} (a : A) : M S A :=
  fun s => {| exit := Returned a; state := s; events := [] |}.

Definition bind {S A B} (c : M S A) (k : A -> M S B) : M S B :=
  fun s =>
    let r := c s in
    match exit r with
    | Panicked why =>
        {| exit := Panicked why; state := state r; events := events r |}
    | Returned a =>
        let r' := k a (state r) in
        {| exit := exit r'; state := state r';
           events := events r ++ events r' |}
    end.

Definition get {S} : M S S :=
  fun s => {| exit := Returned s; state := s; events := [] |}.

Definition modify {S} (f : S -> S) : M S unit :=
  fun s => {| exit := Returned tt; state := f s; events := [] |}.

Definition emit {S} (e : Protocol.Event) : M S unit :=
  fun s => {| exit := Returned tt; state := s; events := [e] |}.

Definition panic {S A} (why : string) : M S A :=
  fun s => {| exit := Panicked why; state := s; events := [] |}.

(** Evaluating [s[:n]] for its value only (an argument of [Printf]). *)
Definition slice_prefix {S} (s : string) (n : nat) : M S unit :=
  if slice_prefix_ok s n then ret tt
  else panic "slice bounds out of range".

Definition returned {S A} (r : Run S A) : Prop :=
  match exit r with Returned _ => True | Panicked _ => False end.

Module Notations.
Notation "x <~ c ;; k" := (bind c (fun x => k))
  (at level 100, c at next level, right associativity).
Notation "c ;;; k" := (bind c (fun _ => k))
  (at level 100, right associativity).
End Notations.

End Eff.

(** ** The mempool manager (network/mempool.go) *)

Module Mempool.
Import Eff Eff.Notations.

Record MempoolTransaction : Type := {
  Transaction : TransactionInterface;
  Timestamp : Z;
  Fees : Z;
  Size : Z;
  Verified : bool
}.

(** [server] is the back pointer used for broadcasting only; its
    address is kept. *)
Record MempoolManager : Type := {
  serverAddress : string;
  transactions : gmap string MempoolTransaction;
  maxSize : Z;
  timeout : Z
}.

(** [NewMempoolManager] *)
Definition NewMempoolManager (address : string) : MempoolManager :=
  {| serverAddress := address;
     transactions := ∅;
     maxSize := 1000;
     timeout := 24 * hour |}.

Definition set_transactions
    (f : gmap string MempoolTransaction -> gmap string MempoolTransaction)
    (mm : MempoolManager) : MempoolManager :=
  {| serverAddress := serverAddress mm;
     transactions := f (transactions mm);
     maxSize := maxSize mm;
     timeout := timeout mm |}.

(** [calculateFees]: ten units a byte. *)
Definition calculateFees (tx : TransactionInterface) : Z :=
  len (Serialize tx) * 10.

(** The loop of [evictOldestTransaction] over the entries in the order
    [order]: the pair [(oldestTxID, oldestTime)]. *)
Definition oldest_step (acc : string * Z)
    (entry : string * MempoolTransaction) : string * Z :=
  let '(oldestTxID, oldestTime) := acc in
  let '(txID, mempoolTx) := entry in
  if String.eqb oldestTxID "" || (Timestamp mempoolTx <? oldestTime)
  then (txID, Timestamp mempoolTx)
  else (oldestTxID, oldestTime).

Definition scan_oldest (order : list (string * MempoolTransaction))
  : string * Z :=
  fold_left oldest_step order ("", 0).

(** What the scan holds after ranging over [order]: nothing yet, or an
    entry of [order] no younger than any other. *)
Definition scanned (order : list (string * MempoolTransaction))
    (acc : string * Z) : Prop :=
  (order = [] /\ fst acc = "")
  \/ exists e, (fst acc, e) ∈ order
               /\ snd acc = Timestamp e
               /\ forall k' e', (k', e') ∈ order -> snd acc <= Timestamp e'.

(** [evictOldestTransaction]; [order] is the order in which the
    runtime ranges over [mm.transactions]. *)
Definition evictOldestTransaction
    (order : list (string * MempoolTransaction)) : M MempoolManager unit :=
  let oldestTxID := fst (scan_oldest order) in
  if String.eqb oldestTxID "" then ret tt
  else
    modify (set_transactions (delete oldestTxID)) ;;;
    slice_prefix oldestTxID 8.

(** [broadcastTransaction] *)
Definition broadcastTransaction (tx : TransactionInterface)
  : M MempoolManager unit :=
  mm <~ get ;;
  emit (Protocol.BroadcastMessage Protocol.CmdInv
          (Protocol.PInv
             {| Protocol.iAddrFrom := serverAddress mm;
                Protocol.iType := "tx";
                Protocol.Items := [GetID tx] |})).

(** [AddTransaction]; [now] is the clock reading, [order] the range
    order used if the eviction runs. *)
Definition AddTransaction (tx : TransactionInterface) (now : Z)
    (order : list (string * MempoolTransaction))
  : M MempoolManager (option error) :=
  let txID := sprintf_x (GetID tx) in
  mm <~ get ;;
  match transactions mm !! txID with
  | Some _ => ret (Some (ErrDuplicateTransaction txID))
  | None =>
      (if Z.of_nat (size (transactions mm)) >=? maxSize mm
       then evictOldestTransaction order
       else ret tt) ;;;
      let mempoolTx :=
        {| Transaction := tx;
           Timestamp := now;
           Fees := calculateFees tx;
           Size := len (Serialize tx);
           Verified := true |} in
      modify (set_transactions (insert txID mempoolTx)) ;;;
      slice_prefix txID 8 ;;;
      broadcastTransaction tx ;;;
      ret None
  end.

(** [RemoveTransaction] *)
Definition RemoveTransaction (txID : list byte) : M MempoolManager unit :=
  let txIDStr := sprintf_x txID in
  modify (set_transactions (delete txIDStr)) ;;;
  slice_prefix txIDStr 8.

(** [RemoveConfirmedTransactions] *)
Definition remove_confirmed (txs : gmap string MempoolTransaction)
    (txID : list byte) : gmap string MempoolTransaction :=
  let txIDStr := sprintf_x txID in
  match txs !! txIDStr with
  | Some _ => delete txIDStr txs
  | None => txs
  end.

Definition RemoveConfirmedTransactions (confirmedTxs : list (list byte))
  : M MempoolManager unit :=
  modify (set_transactions (fun txs => fold_left remove_confirmed confirmedTxs txs)).

(** [CleanExpiredTransactions]: the keys whose age exceeds the timeout
    are collected, then deleted; the set collected is the same in
    every range order. *)
Definition expired (now tmo : Z) (entry : string * MempoolTransaction)
  : bool :=
  now - Timestamp (snd entry) >? tmo.

Definition CleanExpiredTransactions (now : Z) : M MempoolManager unit :=
  mm <~ get ;;
  let expiredTxs :=
    map fst (List.filter (expired now (timeout mm))
               (map_to_list (transactions mm))) in
  modify (set_transactions
            (fun txs => fold_left (fun m txID => delete txID m) expiredTxs txs)).

(** [Clear] *)
Definition Clear : M MempoolManager unit :=
  modify (set_transactions (fun _ => ∅)).

(** [ValidateTransaction] *)
Definition ValidateTransaction (tx : TransactionInterface) : option error :=
  if len (GetID tx) =? 0 then Some ErrInvalidTransactionID
  else if len (Serialize tx) =? 0 then Some ErrSerializationFailed
  else None.

(** [HasTransaction] *)
Definition HasTransaction (mm : MempoolManager) (txID : list byte) : bool :=
  bool_decide (is_Some (transactions mm !! sprintf_x txID)).

(** The method [Size] (the name is taken by the field of
    [MempoolTransaction]). *)
Definition PoolSize (mm : MempoolManager) : Z :=
  Z.of_nat (size (transactions mm)).

(** The entry [AddTransaction] builds for [tx] at time [now]. *)
Definition new_entry (tx : TransactionInterface) (now : Z)
  : MempoolTransaction :=
  {| Transaction := tx;
     Timestamp := now;
     Fees := calculateFees tx;
     Size := len (Serialize tx);
     Verified := true |}.

(** Every entry sits under the hexadecimal form of its transaction's
    ID, and that key has the eight characters the log lines slice. *)
Definition well_keyed (txs : gmap string MempoolTransaction) : Prop :=
  forall k e, txs !! k = Some e ->
              k = sprintf_x (GetID (Transaction e))
              /\ (8 <= String.length k)%nat.

(** What holds of the pool of a running process. *)
Definition invariant (mm : MempoolManager) : Prop :=
  maxSize mm = 1000
  /\ Z.of_nat (size (transactions mm)) <= maxSize mm
  /\ well_keyed (transactions mm).

(** [n] transactions with IDs of 4, 5, ... zero bytes, admitted one
    after the other at times 0, 1, ... *)
Definition sample_tx (i : nat) : TransactionInterface :=
  {| GetID := repeat x00 (4 + i); Serialize := [x01] |}.

Fixpoint filled (address : string) (n : nat) : MempoolManager :=
  match n with
  | O => NewMempoolManager address
  | S i =>
      let mm := filled address i in
      state (AddTransaction (sample_tx i) (Z.of_nat i)
               (map_to_list (transactions mm)) mm)
  end.

(** A pool of capacity 2 after admitting the sample transactions 0,
    1 and 2 at times 0, 1 and 2. *)
Definition small_pool_run : MempoolManager :=
  let mm0 := {| serverAddress := "localhost:3000"; transactions := ∅;
                maxSize := 2; timeout := hour |} in
  let add i mm :=
    state (AddTransaction (sample_tx i) (Z.of_nat i)
             (map_to_list (transactions mm)) mm) in
  add 2%nat (add 1%nat (add 0%nat mm0)).

(** The calls that write to the pool. *)
Inductive Op : Type :=
| OpAdd (tx : TransactionInterface) (now : Z)
    (order : list (string * MempoolTransaction))
| OpRemove (txID : list byte)
| OpRemoveConfirmed (confirmedTxs : list (list byte))
| OpCleanExpired (now : Z)
| OpClear.

Definition run_op (op : Op) : M MempoolManager unit :=
  match op with
  | OpAdd tx now order => AddTransaction tx now order ;;; ret tt
  | OpRemove txID => RemoveTransaction txID
  | OpRemoveConfirmed txs => RemoveConfirmedTransactions txs
  | OpCleanExpired now => CleanExpiredTransactions now
  | OpClear => Clear
  end.

(** An argument [order] is admissible when it lists the entries of
    the map, each once. *)
Definition admissible (op : Op) (mm : MempoolManager) : Prop :=
  match op with
  | OpAdd _ _ order => order ≡ₚ map_to_list (transactions mm)
  | _ => True
  end.

(** The pools a running process can hold: the new pool, and what a
    call that returned leaves. *)
Inductive reachable (address : string) : MempoolManager -> Prop :=
| reach_new : reachable address (NewMempoolManager address)
| reach_call mm op :
    reachable address mm ->
    admissible op mm ->
    returned (run_op op mm) ->
    reachable address (state (run_op op mm)).

(** [GetTransaction]: [None] is the pair [(nil, false)]. *)
Definition GetTransaction (mm : MempoolManager) (txID : list byte)
  : option TransactionInterface :=
  match transactions mm !! sprintf_x txID with
  | Some mempoolTx => Some (Transaction mempoolTx)
  | None => None
  end.

(** The second loop of [GetTransactionsByFees]: the pair
    [(result, count)]. *)
Definition by_fees_step (limit : Z)
    (acc : list TransactionInterface * Z) (mempoolTx : MempoolTransaction)
  : list TransactionInterface * Z :=
  let '(result, count) := acc in
  if count >=? limit then (result, count)
  else (result ++ [Transaction mempoolTx], count + 1).

(** [GetTransactionsByFees]; [order] is the order in which the runtime
    ranges over the map, [maxCap] the largest capacity for which
    [make([]TransactionInterface, 0, limit)] succeeds on the machine: a
    negative or greater capacity ends the process. *)
Definition GetTransactionsByFees (maxCap limit : Z)
    (order : list (string * MempoolTransaction))
  : Exit (list TransactionInterface) :=
  let mempoolTxs := map snd order in
  if (limit <? 0) || (maxCap <? limit)
  then Panicked "makeslice: cap out of range"
  else Returned (fst (fold_left (by_fees_step limit) mempoolTxs ([], 0))).




End Mempool.

(** ** The node manager and its peer table (network/mempool.go) *)

Module Node.
Import Eff Eff.Notations.

Inductive PeerStatus : Type :=
| PeerStatusConnecting
| PeerStatusConnected
| PeerStatusDisconnected
| PeerStatusBanned.

Definition status_eqb (a b : PeerStatus) : bool :=
  match a, b with
  | PeerStatusConnecting, PeerStatusConnecting
  | PeerStatusConnected, PeerStatusConnected
  | PeerStatusDisconnected, PeerStatusDisconnected
  | PeerStatusBanned, PeerStatusBanned => true
  | _, _ => false
  end.

Record Peer : Type := {
  Address : string;
  ID : string;
  LastSeen : Z;
  Height : Z;
  Status : PeerStatus;
  Latency : Z;
  Connected : bool;
  Version : Z
}.

(** [peers] maps an address to a [*Peer]; every pointer is created and
    stored by the manager itself and is reachable through the map
    only, so the map holds the record. *)
Record NodeManager : Type := {
  serverAddress : string;
  peers : gmap string Peer;
  bootstrapNodes : list string;
  maxPeers : Z;
  running : bool
}.

(** [NewNodeManager] *)
Definition NewNodeManager (address : string) : NodeManager :=
  {| serverAddress := address;
     peers := ∅;
     bootstrapNodes := ["localhost:3001"; "localhost:3002"];
     maxPeers := 8;
     running := false |}.

Definition set_peers (f : gmap string Peer -> gmap string Peer)
    (nm : NodeManager) : NodeManager :=
  {| serverAddress := serverAddress nm;
     peers := f (peers nm);
     bootstrapNodes := bootstrapNodes nm;
     maxPeers := maxPeers nm;
     running := running nm |}.

(** A [Peer] literal that sets the four fields the source sets and
    leaves the others at their zero value. *)
Definition new_peer (address : string) (now : Z) (st : PeerStatus)
    (conn : bool) : Peer :=
  {| Address := address; ID := ""; LastSeen := now; Height := 0;
     Status := st; Latency := 0; Connected := conn; Version := 0 |}.

Definition is_connected (p : Peer) : bool :=
  Connected p && status_eqb (Status p) PeerStatusConnected.

(** The entries that count as connected. *)
Definition connected_entries (ps : gmap string Peer) : nat :=
  length (List.filter (fun e => is_connected (snd e)) (map_to_list ps)).

(** [getConnectedPeerCount] *)
Definition getConnectedPeerCount (nm : NodeManager) : Z :=
  len (List.filter (fun e => is_connected (snd e)) (map_to_list (peers nm))).

(** [ConnectToPeer]: [now1] and [now2] are the two clock readings,
    [dial] the result of [nm.server.ConnectToPeer(address)]. *)
Definition ConnectToPeer (address : string) (now1 : Z)
    (dial : option error) (now2 : Z) : M NodeManager (option error) :=
  nm <~ get ;;
  if String.eqb address (serverAddress nm) then ret (Some ErrConnectToSelf)
  else if match peers nm !! address with
          | Some peer => Connected peer
          | None => false
          end
  then ret (Some (ErrAlreadyConnected address))
  else if getConnectedPeerCount nm >=? maxPeers nm
  then ret (Some (ErrMaxPeers (maxPeers nm)))
  else
    let peer := new_peer address now1 PeerStatusConnecting false in
    modify (set_peers (insert address peer)) ;;;
    emit (Protocol.ServerConnectToPeer address) ;;;
    match dial with
    | Some _ =>
        modify (set_peers
                  (insert address
                     (new_peer address now1 PeerStatusDisconnected false))) ;;;
        ret (Some (ErrConnectFailed address))
    | None =>
        modify (set_peers
                  (insert address
                     (new_peer address now2 PeerStatusConnected true))) ;;;
        ret None
    end.

(** [DisconnectFromPeer] *)
Definition DisconnectFromPeer (address : string) : M NodeManager unit :=
  modify (set_peers
            (alter (fun peer =>
                      {| Address := Address peer; ID := ID peer;
                         LastSeen := LastSeen peer; Height := Height peer;
                         Status := PeerStatusDisconnected;
                         Latency := Latency peer; Connected := false;
                         Version := Version peer |}) address)).

(** [AddPeer] *)
Definition AddPeer (address : string) (now : Z) : M NodeManager unit :=
  nm <~ get ;;
  if String.eqb address (serverAddress nm) then ret tt
  else match peers nm !! address with
       | Some _ => ret tt
       | None =>
           modify (set_peers
                     (insert address
                        (new_peer address now PeerStatusDisconnected false)))
       end.

(** [RemovePeer] *)
Definition RemovePeer (address : string) : M NodeManager unit :=
  modify (set_peers (delete address)).

(** [UpdatePeerInfo] *)
Definition UpdatePeerInfo (address : string) (height : Z) (version : Z)
    (now : Z) : M NodeManager unit :=
  nm <~ get ;;
  match peers nm !! address with
  | Some peer =>
      modify (set_peers
                (insert address
                   {| Address := Address peer; ID := ID peer;
                      LastSeen := now; Height := height;
                      Status := PeerStatusConnected;
                      Latency := Latency peer; Connected := true;
                      Version := version |}))
  | None =>
      modify (set_peers
                (insert address
                   {| Address := address; ID := ""; LastSeen := now;
                      Height := height; Status := PeerStatusConnected;
                      Latency := 0; Connected := true;
                      Version := version |}))
  end.

(** [BanPeer] *)
Definition BanPeer (address : string) (reason : string)
  : M NodeManager unit :=
  modify (set_peers
            (alter (fun peer =>
                      {| Address := Address peer; ID := ID peer;
                         LastSeen := LastSeen peer; Height := Height peer;
                         Status := PeerStatusBanned;
                         Latency := Latency peer; Connected := false;
                         Version := Version peer |}) address)).

(** [IsPeerBanned] *)
Definition IsPeerBanned (nm : NodeManager) (address : string) : bool :=
  match peers nm !! address with
  | Some peer => status_eqb (Status peer) PeerStatusBanned
  | None => false
  end.

(** [maintainPeers]: the stale addresses are collected, then deleted;
    the set collected is the same in every range order. *)
Definition stale (now : Z) (entry : string * Peer) : bool :=
  (now - LastSeen (snd entry) >? 5 * minute)
  && negb (status_eqb (Status (snd entry)) PeerStatusBanned).

Definition maintainPeers (now : Z) : M NodeManager unit :=
  nm <~ get ;;
  let stalePeers :=
    map fst (List.filter (stale now) (map_to_list (peers nm))) in
  modify (set_peers
            (fun ps => fold_left (fun m address => delete address m) stalePeers ps)).

(** The status of the entry under [address], if there is one. *)
Definition status_of (nm : NodeManager) (address : string)
  : option PeerStatus :=
  Status <$> peers nm !! address.

(** The table after a version handshake from each of [addresses]:
    [HandleVersion] calls [UpdatePeerInfo] once for each. *)
Definition after_handshakes (addresses : list string) (nm : NodeManager)
  : NodeManager :=
  fold_left
    (fun nm address => Eff.state (UpdatePeerInfo address 0 1 0 nm))
    addresses nm.

Definition nine_addresses : list string :=
  ["10.0.0.1:3000"; "10.0.0.2:3000"; "10.0.0.3:3000"; "10.0.0.4:3000";
   "10.0.0.5:3000"; "10.0.0.6:3000"; "10.0.0.7:3000"; "10.0.0.8:3000";
   "10.0.0.9:3000"].

(** A table with one peer, added and then banned. *)
Definition one_banned (self address : string) : NodeManager :=
  Eff.state
    (BanPeer address "misbehavior"
       (Eff.state (AddPeer address 0 (NewNodeManager self)))).

(** [GetConnectedPeers]; [order] is the order in which the runtime
    ranges over [nm.peers]. *)
Definition GetConnectedPeers (order : list (string * Peer)) : list Peer :=
  map snd (List.filter (fun e => is_connected (snd e)) order).

(** [GetPeerCount] *)
Definition GetPeerCount (nm : NodeManager) : Z :=
  Z.of_nat (size (peers nm)).

(** [GetBestPeers]: the connected peers in range order, cut to the
    first [limit] by [bestPeers[:limit]], which panics for a negative
    [limit]. *)
Definition GetBestPeers (limit : Z) (order : list (string * Peer))
  : Exit (list Peer) :=
  let bestPeers := GetConnectedPeers order in
  if len bestPeers >? limit then
    if limit <? 0 then Panicked "slice bounds out of range"
    else Returned (take (Z.to_nat limit) bestPeers)
  else Returned bestPeers.

Definition set_bootstrapNodes (nodes : list string) (nm : NodeManager)
  : NodeManager :=
  {| serverAddress := serverAddress nm;
     peers := peers nm;
     bootstrapNodes := nodes;
     maxPeers := maxPeers nm;
     running := running nm |}.

(** [SetBootstrapNodes] *)
Definition SetBootstrapNodes (nodes : list string) : M NodeManager unit :=
  modify (set_bootstrapNodes nodes).

(** [AddBootstrapNode] *)
Definition AddBootstrapNode (node : string) : M NodeManager unit :=
  nm <~ get ;;
  if existsb (fun existing => String.eqb existing node) (bootstrapNodes nm)
  then ret tt
  else modify (set_bootstrapNodes (bootstrapNodes nm ++ [node])).

(** What the network and the clock answer to the [ConnectToPeer] call
    made for the [i]-th element of a list of nodes: the two clock
    readings and the result of the dial. *)
Definition Environment : Type := nat -> Z * option error * Z.

(** The two errors of [Bootstrap]. *)
Inductive BootstrapError : Type :=
| ErrNoBootstrapNodes
| ErrNoBootstrapConnection.

(** The loop of [Bootstrap] from the [i]-th node on, with
    [connectedCount] connections made so far; it yields the final
    count. *)
Fixpoint bootstrap_loop (env : Environment) (i : nat) (nodes : list string)
    (connectedCount : Z) : M NodeManager Z :=
  match nodes with
  | [] => ret connectedCount
  | node :: rest =>
      nm <~ get ;;
      if String.eqb node (serverAddress nm)
      then bootstrap_loop env (S i) rest connectedCount
      else
        let '(now1, dial, now2) := env i in
        err <~ ConnectToPeer node now1 dial now2 ;;
        match err with
        | Some _ => bootstrap_loop env (S i) rest connectedCount
        | None =>
            if connectedCount + 1 >=? 2 then ret (connectedCount + 1)
            else bootstrap_loop env (S i) rest (connectedCount + 1)
        end
  end.

(** [Bootstrap] *)
Definition Bootstrap (env : Environment)
  : M NodeManager (option BootstrapError) :=
  nm <~ get ;;
  if len (bootstrapNodes nm) =? 0 then ret (Some ErrNoBootstrapNodes)
  else
    connectedCount <~ bootstrap_loop env 0 (bootstrapNodes nm) 0 ;;
    if connectedCount =? 0 then ret (Some ErrNoBootstrapConnection)
    else ret None.



(** [pingPeer]; [sent] is the result of [nm.server.SendMessage]. *)
Definition pingPeer (address : string) (sent : option error)
  : M NodeManager unit :=
  nm <~ get ;;
  emit (Protocol.SendMessage address Protocol.CmdPing
          (Protocol.PPing {| Protocol.pAddrFrom := serverAddress nm |})) ;;;
  match sent with
  | Some _ => DisconnectFromPeer address
  | None => ret tt
  end.

(** The peer under [address] counts as connected. *)
Definition connected_at (nm : NodeManager) (address : string) : bool :=
  match peers nm !! address with
  | Some peer => is_connected peer
  | None => false
  end.

(** The three guards of [ConnectToPeer], in the order the source tests
    them: the error of the first that fires. *)
Definition connect_guard (nm : NodeManager) (address : string)
  : option error :=
  if String.eqb address (serverAddress nm) then Some ErrConnectToSelf
  else if match peers nm !! address with
          | Some peer => Connected peer
          | None => false
          end
  then Some (ErrAlreadyConnected address)
  else if getConnectedPeerCount nm >=? maxPeers nm
  then Some (ErrMaxPeers (maxPeers nm))
  else None.

(** Every outbound call in [evs] is a dial of one of [nodes], none of
    the node's own address. *)
Definition dials_only (nodes : list string) (self : string)
    (evs : list Protocol.Event) : Prop :=
  forall e, e ∈ evs ->
            exists node, e = Protocol.ServerConnectToPeer node
                         /\ node ∈ nodes /\ node <> self.

(** The configuration a call leaves untouched. *)
Definition same_config (nm nm' : NodeManager) : Prop :=
  serverAddress nm' = serverAddress nm
  /\ bootstrapNodes nm' = bootstrapNodes nm
  /\ maxPeers nm' = maxPeers nm
  /\ running nm' = running nm.

(** No peer that counted as connected in [nm] has stopped to in [nm'],
    and the bound on their number, if it held, still holds. *)
Definition keeps_connections (nm nm' : NodeManager) : Prop :=
  (forall a, connected_at nm a = true -> connected_at nm' a = true)
  /\ (getConnectedPeerCount nm <= maxPeers nm ->
      getConnectedPeerCount nm' <= maxPeers nm').

End Node.

(** ** The server, its handlers and the sync manager
       (network/mempool.go, network/handlers.go, unnamed/part_000) *)

Module Server.
Import Eff Eff.Notations.

(** The [Server] fields the handlers use.  [bestHeight] is what the
    ledger collaborator answers to [GetBestHeight()];
    [blocksInTransit] is the package-level variable the handlers and
    the sync manager share. *)
Record Server : Type := {
  Address : string;
  bestHeight : Z;
  KnownNodes : gmap string bool;
  Mempool : gmap string TransactionInterface;
  NodeManager : option Node.NodeManager;
  blocksInTransit : list (list byte)
}.

Definition set_KnownNodes (f : gmap string bool -> gmap string bool)
    (s : Server) : Server :=
  {| Address := Address s; bestHeight := bestHeight s;
     KnownNodes := f (KnownNodes s); Mempool := Mempool s;
     NodeManager := NodeManager s;
     blocksInTransit := blocksInTransit s |}.

Definition set_NodeManager (nm : option Node.NodeManager) (s : Server)
  : Server :=
  {| Address := Address s; bestHeight := bestHeight s;
     KnownNodes := KnownNodes s; Mempool := Mempool s;
     NodeManager := nm;
     blocksInTransit := blocksInTransit s |}.

Definition set_blocksInTransit (q : list (list byte)) (s : Server)
  : Server :=
  {| Address := Address s; bestHeight := bestHeight s;
     KnownNodes := KnownNodes s; Mempool := Mempool s;
     NodeManager := NodeManager s;
     blocksInTransit := q |}.

(** [if s.NodeManager != nil { s.NodeManager.m(...) }] *)
Definition on_NodeManager (c : M Node.NodeManager unit) : M Server unit :=
  fun s =>
    match NodeManager s with
    | None => ret tt s
    | Some nm =>
        let r := c nm in
        {| exit := exit r;
           state := set_NodeManager (Some (state r)) s;
           events := events r |}
    end.

(** [SendVersion] *)
Definition SendVersion (addr : string) : M Server unit :=
  s <~ get ;;
  emit (Protocol.SendMessage addr Protocol.CmdVersion
          (Protocol.PVersion
             {| Protocol.Version := 1;
                Protocol.BestHeight := int32 (bestHeight s);
                Protocol.vAddrFrom := Address s |})).

(** [SendGetBlocks] *)
Definition SendGetBlocks (addr : string) : M Server unit :=
  s <~ get ;;
  emit (Protocol.SendMessage addr Protocol.CmdGetBlocks
          (Protocol.PGetBlocks {| Protocol.gbAddrFrom := Address s |})).

(** [SendGetData] *)
Definition SendGetData (addr kind : string) (id : list byte)
  : M Server unit :=
  s <~ get ;;
  emit (Protocol.SendMessage addr Protocol.CmdGetData
          (Protocol.PGetData
             {| Protocol.gdAddrFrom := Address s;
                Protocol.gdType := kind;
                Protocol.ID := id |})).

(** [NodeIsKnown] *)
Definition NodeIsKnown (s : Server) (addr : string) : bool :=
  bool_decide (is_Some (KnownNodes s !! addr)).

(** [TransactionExists] *)
Definition TransactionExists (s : Server) (txID : list byte) : bool :=
  bool_decide (is_Some (Mempool s !! sprintf_x txID)).

(** [BytesEqual] *)
Fixpoint bytes_all_equal (a b : list byte) : bool :=
  match a, b with
  | x :: a', y :: b' => if Byte.eqb x y then bytes_all_equal a' b' else false
  | _, _ => true
  end.

Definition BytesEqual (a b : list byte) : bool :=
  if negb (len a =? len b) then false else bytes_all_equal a b.

(** [HandleVersion], from the decoded [VersionData] on ([GobDecode]
    has returned); [now] is the clock reading of [UpdatePeerInfo]. *)
Definition HandleVersion (versionData : Protocol.VersionData) (now : Z)
  : M Server unit :=
  let addrFrom := Protocol.vAddrFrom versionData in
  s <~ get ;;
  let myBestHeight := bestHeight s in
  let foreignerBestHeight := Protocol.BestHeight versionData in
  (if myBestHeight <? foreignerBestHeight then SendGetBlocks addrFrom
   else if myBestHeight >? foreignerBestHeight then SendVersion addrFrom
   else ret tt) ;;;
  (if NodeIsKnown s addrFrom then ret tt
   else modify (set_KnownNodes (insert addrFrom true))) ;;;
  on_NodeManager
    (Node.UpdatePeerInfo addrFrom foreignerBestHeight
       (Protocol.Version versionData) now).

(** The loop of [HandleInv] that rebuilds the queue. *)
Definition drop_hash (blockHash : list byte) (queue : list (list byte))
  : list (list byte) :=
  fold_left
    (fun newInTransit b =>
       if negb (BytesEqual b blockHash) then newInTransit ++ [b]
       else newInTransit)
    queue [].

(** [HandleInv], from the decoded [InvData] on. *)
Definition HandleInv (invData : Protocol.InvData) : M Server unit :=
  let addrFrom := Protocol.iAddrFrom invData in
  (if String.eqb (Protocol.iType invData) "block" then
     modify (set_blocksInTransit (Protocol.Items invData)) ;;;
     match Protocol.Items invData !! 0%nat with
     | None => panic "index out of range [0] with length 0"
     | Some blockHash =>
         SendGetData addrFrom "block" blockHash ;;;
         s <~ get ;;
         modify (set_blocksInTransit
                   (drop_hash blockHash (blocksInTransit s)))
     end
   else ret tt) ;;;
  (if String.eqb (Protocol.iType invData) "tx" then
     match Protocol.Items invData !! 0%nat with
     | None => panic "index out of range [0] with length 0"
     | Some txID =>
         s <~ get ;;
         if negb (TransactionExists s txID)
         then SendGetData addrFrom "tx" txID
         else ret tt
     end
   else ret tt).

(** [ChainInfo] *)
Record ChainInfo : Type := {
  NodeAddr : string;
  Height : Z;
  Hash : list byte
}.

(** [validateChainInfo] *)
Definition validateChainInfo (chain : ChainInfo) : bool :=
  (Height chain >=? 0) && (len (Hash chain) >? 0).

(** [findLongestChain].  Each iteration of the [range] loop has its
    own variable [chain] (the loop semantics of Go 1.22 and later), so
    [longest = &chain] keeps the candidate of that iteration. *)
Definition longest_step (longest : option ChainInfo) (chain : ChainInfo)
  : option ChainInfo :=
  if match longest with
     | None => true
     | Some l => Height chain >? Height l
     end
  then if validateChainInfo chain then Some chain else longest
  else longest.

Definition findLongestChain (chains : list ChainInfo) : option ChainInfo :=
  fold_left longest_step chains None.

(** The same loop under the semantics of Go 1.21 and earlier, where
    [chain] is one variable for the whole loop: the state is the
    content of that variable and whether [longest] points at it.  Once
    [longest] is set it aliases [chain], so the test compares the
    variable with itself. *)
Definition shared_step (st : option ChainInfo * bool) (elem : ChainInfo)
  : option ChainInfo * bool :=
  let chain := elem in
  let longest_set := snd st in
  if negb longest_set || (Height chain >? Height chain)
  then (Some chain, if validateChainInfo chain then true else longest_set)
  else (Some chain, longest_set).

Definition findLongestChain_shared_variable (chains : list ChainInfo)
  : option ChainInfo :=
  let st := fold_left shared_step chains (None, false) in
  if snd st then fst st else None.




(** [IsSynced] *)
Definition IsSynced (s : Server) : bool :=
  len (blocksInTransit s) =? 0.

(** [NewServer] at [address], on a ledger whose best height is
    [height]. *)
Definition NewServer (address : string) (height : Z) : Server :=
  {| Address := address;
     bestHeight := height;
     KnownNodes := ∅;
     Mempool := ∅;
     NodeManager := Some (Node.NewNodeManager address);
     blocksInTransit := [] |}.

(** [BlockData] *)
Record BlockData : Type := {
  bAddrFrom : string;
  Block : list byte
}.

(** The methods of [BlockInterface]. *)
Record BlockInterface : Type := {
  GetHash : list byte;
  GetHeight : Z;
  blockSerialize : list byte
}.

(** The reading methods of [BlockchainInterface] other than
    [GetBestHeight], which is the field [bestHeight]: the hashes the
    ledger lists, and its lookup, [None] standing for the error. *)
Record BlockchainInterface : Type := {
  GetBlockHashes : list (list byte);
  GetBlock : list byte -> option BlockInterface
}.

(** [SendInv] *)
Definition SendInv (addr kind : string) (items : list (list byte))
  : M Server unit :=
  s <~ get ;;
  emit (Protocol.SendMessage addr Protocol.CmdInv
          (Protocol.PInv
             {| Protocol.iAddrFrom := Address s;
                Protocol.iType := kind;
                Protocol.Items := items |})).

(** [HandleGetBlocks], from the decoded [GetBlocksData] on. *)
Definition HandleGetBlocks (bc : BlockchainInterface)
    (getBlocksData : Protocol.GetBlocksData) : M Server unit :=
  let blocks := GetBlockHashes bc in
  SendInv (Protocol.gbAddrFrom getBlocksData) "block" blocks.

(** The loop of [HandleBlock] over the known nodes. *)
Fixpoint request_blocks_from (nodes : list string) : M Server unit :=
  match nodes with
  | [] => ret tt
  | node :: rest =>
      s <~ get ;;
      (if negb (String.eqb node (Address s)) then SendGetBlocks node
       else ret tt) ;;;
      request_blocks_from rest
  end.

(** [HandleBlock], from the decoded [BlockData] on; [order] is the
    order in which the runtime ranges over [s.KnownNodes]. *)
Definition HandleBlock (blockData : BlockData)
    (order : list (string * bool)) : M Server unit :=
  s <~ get ;;
  if len (blocksInTransit s) >? 0 then
    match blocksInTransit s with
    | blockHash :: rest =>
        SendGetData (bAddrFrom blockData) "block" blockHash ;;;
        modify (set_blocksInTransit rest)
    | [] => panic "index out of range [0] with length 0"
    end
  else request_blocks_from (map fst order).

(** A run of block messages handled one after the other, each with the
    range order the runtime picked for it. *)
Fixpoint handle_blocks (messages : list (BlockData * list (string * bool)))
  : M Server unit :=
  match messages with
  | [] => ret tt
  | (blockData, order) :: rest =>
      HandleBlock blockData order ;;; handle_blocks rest
  end.

(** The loop of [ValidateChain] over the listed hashes. *)
Fixpoint validate_blocks (bc : BlockchainInterface)
    (blockHashes : list (list byte)) : bool :=
  match blockHashes with
  | [] => true
  | hash :: rest =>
      match GetBlock bc hash with
      | None => false
      | Some block =>
          if len (GetHash block) =? 0 then false
          else validate_blocks bc rest
      end
  end.

(** [ValidateChain] *)
Definition ValidateChain (bc : BlockchainInterface) : bool :=
  let blockHashes := GetBlockHashes bc in
  if len blockHashes =? 0 then true
  else validate_blocks bc blockHashes.

End Server.

(** * Properties *)

(** ** Bytes and frame lengths *)

Lemma Z_of_byte_of_Z (n : Z) : Z_of_byte (byte_of_Z n) = n mod 256.
Proof.
  unfold Z_of_byte, byte_of_Z.
  assert (Hr : 0 <= n mod 256 < 256) by (apply Z.mod_pos_bound; lia).
  destruct (Byte.of_N (Z.to_N (n mod 256))) as [b|] eqn:Hb.
  - apply Byte.to_of_N in Hb. simpl. rewrite Hb. lia.
  - apply Byte.of_N_None_iff in Hb. lia.
Qed.

Lemma Z_of_byte_range (b : byte) : 0 <= Z_of_byte b < 256.
Proof.
  unfold Z_of_byte. pose proof (Byte.to_N_bounded b). lia.
Qed.

Lemma shifted_byte_bit (n k i : Z) :
  0 <= k -> 0 <= i ->
  Z.testbit (Z.shiftl (Z.shiftr n k mod 256) k) i
  = (k <=? i) && (i <? k + 8) && Z.testbit n i.
Proof.
  intros Hk Hi. destruct (Z.leb_spec k i) as [Hle|Hlt].
  - rewrite Z.shiftl_spec_high by lia.
    change 256 with (2 ^ 8). rewrite Z.testbit_mod_pow2 by lia.
    rewrite Z.shiftr_spec by lia.
    replace (i - k + k) with i by lia.
    simpl. f_equal.
    destruct (Z.ltb_spec (i - k) 8), (Z.ltb_spec i (k + 8)); auto; lia.
  - rewrite Z.shiftl_spec_low by lia. reflexivity.
Qed.

(** The four-byte length prefix is read back as written, for lengths
    below 4 GiB. *)
Lemma BytesToInt_IntToBytes (n : Z) :
  0 <= n < 2 ^ 32 ->
  Protocol.BytesToInt (Protocol.IntToBytes n) = Returned n.
Proof.
  intros Hn. unfold Protocol.IntToBytes, Protocol.BytesToInt. f_equal.
  rewrite !Z_of_byte_of_Z.
  apply Z.bits_inj'. intros i Hi.
  rewrite !Z.lor_spec, !shifted_byte_bit by lia.
  change 256 with (2 ^ 8). rewrite Z.testbit_mod_pow2 by lia.
  destruct (Z.ltb_spec i 32) as [Hlt|Hge].
  - destruct (Z.testbit n i); [|rewrite !andb_false_r; reflexivity].
    rewrite !andb_true_r.
    destruct (Z.leb_spec 24 i), (Z.leb_spec 16 i), (Z.leb_spec 8 i),
      (Z.ltb_spec i (24 + 8)), (Z.ltb_spec i (16 + 8)),
      (Z.ltb_spec i (8 + 8)), (Z.ltb_spec i 8);
      simpl; try reflexivity; lia.
  - assert (Hbit : Z.testbit n i = false).
    { rewrite <- (Z.mod_small n (2 ^ 32)) by lia.
      apply Z.mod_pow2_bits_high. lia. }
    rewrite Hbit, !andb_false_r. reflexivity.
Qed.

Lemma IntToBytes_length (n : Z) : length (Protocol.IntToBytes n) = 4%nat.
Proof. reflexivity. Qed.

Lemma ReadFull_app (a b : list byte) :
  Protocol.ReadFull (a ++ b) (len a) = inl (a, b).
Proof.
  unfold Protocol.ReadFull, len.
  rewrite length_app.
  destruct (Z.leb_spec (Z.of_nat (length a))
              (Z.of_nat (length a + length b))) as [_|Hlt]; [|lia].
  rewrite Nat2Z.id.
  rewrite take_app_length, drop_app_length. reflexivity.
Qed.

Lemma ReadFull_short (r : list byte) (n : Z) :
  len r < n ->
  Protocol.ReadFull r n = inr io_EOF \/
  Protocol.ReadFull r n = inr io_ErrUnexpectedEOF.
Proof.
  intros Hlt. unfold Protocol.ReadFull.
  destruct (Z.leb_spec n (len r)); [lia|].
  destruct r; auto.
Qed.

(** ** The message codec *)

Lemma plain_codec_round_trip (c : string) (d : list byte) :
  Protocol.plain_decode (Protocol.plain_encode_command c d)
  = Some {| Protocol.Command := c; Protocol.Data := d |}.
Proof.
  induction c as [|a c IH]; simpl.
  - reflexivity.
  - rewrite IH. simpl. rewrite ascii_of_byte_of_ascii. reflexivity.
Qed.

Lemma plain_codec_laws : Protocol.GobLaws Protocol.plain_codec.
Proof.
  split.
  - intros [c d]. apply plain_codec_round_trip.
  - reflexivity.
Qed.

Section Codec.
Import Protocol.
Context (G : GobCodec) (HG : GobLaws G).


Lemma DeserializeMessage_empty :
  DeserializeMessage G [] = Panicked "gob: decode error".
Proof.
  unfold DeserializeMessage. rewrite (gob_decode_empty G HG). reflexivity.
Qed.

(** A complete frame: the prefix, the body it announces, then whatever
    follows on the stream. *)
Lemma ReadMessage_complete_frame (body rest : list byte) :
  len body < 2 ^ 32 ->
  ReadMessage G (IntToBytes (len body) ++ body ++ rest)
  = match gob_decode G body with
    | Some msg => (Returned (inl msg), rest)
    | None => (Panicked "gob: decode error", rest)
    end.
Proof.
  intros Hlen. unfold ReadMessage.
  change 4 with (len (IntToBytes (len body))).
  rewrite ReadFull_app.
  rewrite BytesToInt_IntToBytes by (unfold len in *; lia).
  rewrite ReadFull_app. unfold DeserializeMessage.
  destruct (gob_decode G body); reflexivity.
Qed.

(** A stream that ends inside the prefix or inside the body. *)
Lemma ReadMessage_short_prefix (r : list byte) :
  len r < 4 ->
  ReadMessage G r = (Returned (inr io_EOF), []) \/
  ReadMessage G r = (Returned (inr io_ErrUnexpectedEOF), []).
Proof.
  intros Hlen. unfold ReadMessage.
  destruct (ReadFull_short r 4 Hlen) as [-> | ->]; auto.
Qed.

Lemma ReadMessage_short_body (n : Z) (body : list byte) :
  0 <= n < 2 ^ 32 -> len body < n ->
  ReadMessage G (IntToBytes n ++ body) = (Returned (inr io_EOF), []) \/
  ReadMessage G (IntToBytes n ++ body)
  = (Returned (inr io_ErrUnexpectedEOF), []).
Proof.
  intros Hn Hlen. unfold ReadMessage.
  change 4 with (len (IntToBytes n)).
  rewrite ReadFull_app, BytesToInt_IntToBytes by lia.
  destruct (ReadFull_short body n Hlen) as [-> | ->]; auto.
Qed.

End Codec.



(** C4, as the code has it.  A stream that ends before the four-byte
    prefix is complete, or before the number of bytes the prefix
    announces has arrived, makes [ReadMessage] return an error
    ([io.EOF] or [io.ErrUnexpectedEOF]) to its caller.  A complete
    frame whose body the gob decoder rejects is not reported as an
    error: [DeserializeMessage] calls [log.Panic], and [ReadMessage]
    panics with it.  The frame with an empty body is such a frame. *)
Theorem ReadMessage_failure_modes (G : Protocol.GobCodec) :
  Protocol.GobLaws G ->
  (forall r, len r < 4 ->
     Protocol.ReadMessage G r = (Returned (inr io_EOF), []) \/
     Protocol.ReadMessage G r = (Returned (inr io_ErrUnexpectedEOF), []))
  /\ (forall n body, 0 <= n < 2 ^ 32 -> len body < n ->
        Protocol.ReadMessage G (Protocol.IntToBytes n ++ body)
        = (Returned (inr io_EOF), []) \/
        Protocol.ReadMessage G (Protocol.IntToBytes n ++ body)
        = (Returned (inr io_ErrUnexpectedEOF), []))
  /\ (forall body rest, len body < 2 ^ 32 ->
        Protocol.gob_decode G body = None ->
        Protocol.ReadMessage G (Protocol.IntToBytes (len body) ++ body ++ rest)
        = (Panicked "gob: decode error", rest))
  /\ Protocol.ReadMessage G [x00; x00; x00; x00]
     = (Panicked "gob: decode error", []).
Proof.
  intros HG. repeat split.
  - apply ReadMessage_short_prefix.
  - apply ReadMessage_short_body.
  - intros body rest Hlen Hdec.
    rewrite ReadMessage_complete_frame by exact Hlen.
    rewrite Hdec. reflexivity.
  - change [x00; x00; x00; x00]
      with (Protocol.IntToBytes (len (@nil byte)) ++ [] ++ []).
    rewrite ReadMessage_complete_frame by (vm_compute; reflexivity).
    rewrite (Protocol.gob_decode_empty G HG). reflexivity.
Qed.

Lemma ReadMessage_failure_modes_witness :
  Protocol.ReadMessage Protocol.plain_codec [x00; x00; x00]
  = (Returned (inr io_ErrUnexpectedEOF), [])
  /\ Protocol.ReadMessage Protocol.plain_codec [x00; x00; x00; x02; x00]
     = (Returned (inr io_ErrUnexpectedEOF), [])
  /\ Protocol.ReadMessage Protocol.plain_codec
       [x00; x00; x00; x01; x07; xaa]
     = (Panicked "gob: decode error", [xaa]).
Proof.
  destruct (ReadMessage_failure_modes Protocol.plain_codec plain_codec_laws)
    as (Hprefix & Hbody & Hmalformed & _).
  split; [|split].
  - destruct (Hprefix [x00; x00; x00]) as [H|H];
      [vm_compute; reflexivity | vm_compute in H; discriminate H | exact H].
  - destruct (Hbody 2 [x00]) as [H|H];
      [lia | vm_compute; reflexivity | vm_compute in H; discriminate H
      | exact H].
  - apply (Hmalformed [x07] [xaa]); vm_compute; reflexivity.
Defined.

(** C4, as stated, fails: the four bytes 00 00 00 00 are a frame with an
    empty body; [ReadMessage] reads them without error, hands the empty
    body to [DeserializeMessage], and the decoder's [io.EOF] goes to
    [log.Panic] instead of being returned.  ([DeserializeMessage_empty]
    shows this for every codec with the laws of gob.) *)
Lemma ReadMessage_empty_frame_panics :
  Protocol.GobLaws Protocol.plain_codec
  /\ Protocol.ReadMessage Protocol.plain_codec [x00; x00; x00; x00]
     = (Panicked "gob: decode error", []).
Proof.
  split; [exact plain_codec_laws | reflexivity].
Qed.

(** ** The mempool *)

Lemma sprintf_x_length (bs : list byte) :
  String.length (sprintf_x bs) = (2 * length bs)%nat.
Proof.
  induction bs as [|b bs IH]; simpl; [reflexivity | rewrite IH; lia].
Qed.

Section OldestEntry.
Import Mempool.

Lemma scan_oldest_scanned (order : list (string * MempoolTransaction)) :
  (forall k e, (k, e) ∈ order -> k <> "") ->
  scanned order (scan_oldest order).
Proof.
  induction order as [|[k0 e0] order IH] using rev_ind; intros Hkeys.
  - left. split; reflexivity.
  - right. unfold scan_oldest. rewrite fold_left_app. simpl.
    fold (scan_oldest order).
    assert (IH' : scanned order (scan_oldest order)).
    { apply IH. intros k e Hin. apply (Hkeys k e).
      apply elem_of_app. left. exact Hin. }
    destruct (scan_oldest order) as [k t]. unfold oldest_step.
    destruct IH' as [[-> Hk] | (e & Hin & Ht & Hmin)]; cbn [fst snd] in *.
    + subst k. simpl. exists e0. split; [|split].
      * apply list_elem_of_singleton. reflexivity.
      * reflexivity.
      * intros k' e' Hin. apply list_elem_of_singleton in Hin.
        inversion Hin. subst. lia.
    + assert (Hne : k <> "").
      { apply (Hkeys k e). apply elem_of_app. left. exact Hin. }
      apply String.eqb_neq in Hne. rewrite Hne. simpl.
      destruct (Z.ltb_spec (Timestamp e0) t) as [Hlt|Hge]; simpl.
      * exists e0. split; [|split].
        -- apply elem_of_app. right. apply list_elem_of_singleton.
           reflexivity.
        -- reflexivity.
        -- intros k' e' Hin'. apply elem_of_app in Hin'.
           destruct Hin' as [Hin'|Hin'].
           ++ specialize (Hmin k' e' Hin'). lia.
           ++ apply list_elem_of_singleton in Hin'. inversion Hin'. lia.
      * exists e. split; [|split].
        -- apply elem_of_app. left. exact Hin.
        -- exact Ht.
        -- intros k' e' Hin'. apply elem_of_app in Hin'.
           destruct Hin' as [Hin'|Hin'].
           ++ apply (Hmin k' e' Hin').
           ++ apply list_elem_of_singleton in Hin'. inversion Hin'.
              subst. lia.
Qed.

(** On a non-empty map without the key [""] the scan ends on an entry
    of the map with the least timestamp, in every range order. *)
Lemma scan_oldest_map (txs : gmap string MempoolTransaction)
    (order : list (string * MempoolTransaction)) :
  order ≡ₚ map_to_list txs ->
  txs !! "" = None ->
  size txs <> 0%nat ->
  exists e, txs !! fst (scan_oldest order) = Some e
            /\ fst (scan_oldest order) <> ""
            /\ forall k' e', txs !! k' = Some e' -> Timestamp e <= Timestamp e'.
Proof.
  intros Hperm Hnokey Hsize.
  assert (Hin : forall k e, (k, e) ∈ order <-> txs !! k = Some e).
  { intros k e. rewrite Hperm. apply elem_of_map_to_list. }
  assert (Hkeys : forall k e, (k, e) ∈ order -> k <> "").
  { intros k e Hke ->. apply Hin in Hke. congruence. }
  destruct (scan_oldest_scanned order Hkeys)
    as [[Hnil _] | (e & He & Ht & Hmin)].
  - apply map_size_ne_0_lookup in Hsize. destruct Hsize as (i & x & Hx).
    apply Hin in Hx. rewrite Hnil in Hx. apply elem_of_nil in Hx.
    contradiction.
  - exists e. split; [|split].
    + apply Hin. exact He.
    + apply (Hkeys _ e He).
    + intros k' e' Hk'. apply Hin in Hk'. specialize (Hmin k' e' Hk').
      lia.
Qed.

End OldestEntry.

(** *** Running a sequence of calls *)

Section EffLaws.
Import Eff.
Context {S A B : Type}.

Lemma run_eta (r : Run S A) :
  {| exit := exit r; state := state r; events := events r |} = r.
Proof. destruct r; reflexivity. Qed.

Lemma bind_ret (a : A) (k : A -> M S B) (s : S) :
  bind (ret a) k s = k a s.
Proof. unfold bind, ret; simpl. destruct (k a s); reflexivity. Qed.

Lemma bind_get (k : S -> M S B) (s : S) : bind get k s = k s s.
Proof. unfold bind, get; simpl. destruct (k s s); reflexivity. Qed.

Lemma bind_panic (why : string) (k : A -> M S B) (s : S) :
  bind (panic why) k s
  = {| exit := Panicked why; state := s; events := [] |}.
Proof. reflexivity. Qed.

Lemma bind_returned (c : M S A) (k : A -> M S B) (s s1 : S) (a : A)
    (ev : list Protocol.Event) :
  c s = {| exit := Returned a; state := s1; events := ev |} ->
  bind c k s
  = {| exit := exit (k a s1); state := state (k a s1);
       events := ev ++ events (k a s1) |}.
Proof. intros Hc. unfold bind. rewrite Hc. reflexivity. Qed.

Lemma bind_panicked (c : M S A) (k : A -> M S B) (s s1 : S) (why : string)
    (ev : list Protocol.Event) :
  c s = {| exit := Panicked why; state := s1; events := ev |} ->
  bind c k s = {| exit := Panicked why; state := s1; events := ev |}.
Proof. intros Hc. unfold bind. rewrite Hc. reflexivity. Qed.

End EffLaws.

Section EffLawsUnit.
Import Eff.
Context {S B : Type}.

Lemma bind_modify (f : S -> S) (k : unit -> M S B) (s : S) :
  bind (modify f) k s = k tt (f s).
Proof. unfold bind, modify; simpl. destruct (k tt (f s)); reflexivity. Qed.

Lemma bind_emit (e : Protocol.Event) (k : unit -> M S B) (s : S) :
  bind (emit e) k s
  = {| exit := exit (k tt s); state := state (k tt s);
       events := e :: events (k tt s) |}.
Proof. reflexivity. Qed.

Lemma bind_slice_prefix (str : string) (n : nat) (k : unit -> M S B)
    (s : S) :
  bind (slice_prefix str n) k s
  = if slice_prefix_ok str n then k tt s
    else {| exit := Panicked "slice bounds out of range"; state := s;
            events := [] |}.
Proof.
  unfold slice_prefix. destruct (slice_prefix_ok str n).
  - apply bind_ret.
  - apply bind_panic.
Qed.

End EffLawsUnit.

Section MempoolCalls.
Import Eff Mempool.

Lemma AddTransaction_duplicate_run (mm : MempoolManager)
    (tx : TransactionInterface) (now : Z)
    (order : list (string * MempoolTransaction)) (e : MempoolTransaction) :
  transactions mm !! sprintf_x (GetID tx) = Some e ->
  AddTransaction tx now order mm
  = {| exit := Returned (Some (ErrDuplicateTransaction (sprintf_x (GetID tx))));
       state := mm; events := [] |}.
Proof.
  intros Hdup. unfold AddTransaction, bind, get. simpl.
  rewrite Hdup. reflexivity.
Qed.

(** With a key other than [""] of eight characters or more, the
    eviction deletes that key and returns. *)
Lemma evictOldestTransaction_run (mm : MempoolManager)
    (order : list (string * MempoolTransaction)) :
  fst (scan_oldest order) <> "" ->
  (8 <= String.length (fst (scan_oldest order)))%nat ->
  evictOldestTransaction order mm
  = {| exit := Returned tt;
       state := set_transactions (delete (fst (scan_oldest order))) mm;
       events := [] |}.
Proof.
  intros Hne Hlen. unfold evictOldestTransaction.
  apply String.eqb_neq in Hne. rewrite Hne.
  unfold bind, modify, slice_prefix, slice_prefix_ok.
  cbn [exit state events].
  apply Nat.leb_le in Hlen. rewrite Hlen. reflexivity.
Qed.

(** The part of [AddTransaction] after the capacity check, on the
    manager [mm1] the check left. *)
Lemma AddTransaction_fresh_run (mm mm1 : MempoolManager)
    (tx : TransactionInterface) (now : Z)
    (order : list (string * MempoolTransaction)) :
  transactions mm !! sprintf_x (GetID tx) = None ->
  (if Z.of_nat (size (transactions mm)) >=? maxSize mm
   then evictOldestTransaction order else ret tt) mm
  = {| exit := Returned tt; state := mm1; events := [] |} ->
  let mm2 :=
    set_transactions (insert (sprintf_x (GetID tx)) (new_entry tx now)) mm1 in
  AddTransaction tx now order mm
  = if slice_prefix_ok (sprintf_x (GetID tx)) 8
    then {| exit := Returned None; state := mm2;
            events := [Protocol.BroadcastMessage Protocol.CmdInv
                         (Protocol.PInv
                            {| Protocol.iAddrFrom := serverAddress mm1;
                               Protocol.iType := "tx";
                               Protocol.Items := [GetID tx] |})] |}
    else {| exit := Panicked "slice bounds out of range"; state := mm2;
            events := [] |}.
Proof.
  intros Hfresh Hcheck mm2. unfold AddTransaction.
  rewrite bind_get, Hfresh, (bind_returned _ _ _ _ _ _ Hcheck).
  rewrite bind_modify, bind_slice_prefix.
  fold (new_entry tx now). fold mm2.
  destruct (slice_prefix_ok (sprintf_x (GetID tx)) 8); [|reflexivity].
  unfold broadcastTransaction. rewrite bind_returned with
    (a := tt) (s1 := mm2)
    (ev := [Protocol.BroadcastMessage Protocol.CmdInv
              (Protocol.PInv
                 {| Protocol.iAddrFrom := serverAddress mm2;
                    Protocol.iType := "tx";
                    Protocol.Items := [GetID tx] |})]).
  - reflexivity.
  - rewrite bind_get. reflexivity.
Qed.

End MempoolCalls.

Section MempoolInvariant.
Import Eff Mempool.

Lemma well_keyed_no_empty_key (txs : gmap string MempoolTransaction) :
  well_keyed txs -> txs !! "" = None.
Proof.
  intros Hwk. destruct (txs !! "") as [e|] eqn:He; [|reflexivity].
  destruct (Hwk _ _ He) as [_ Hlen]. simpl in Hlen. lia.
Qed.

Lemma well_keyed_subseteq (txs txs' : gmap string MempoolTransaction) :
  txs' ⊆ txs -> well_keyed txs -> well_keyed txs'.
Proof.
  intros Hsub Hwk k e Hk. apply (Hwk k e).
  eapply lookup_weaken; eassumption.
Qed.

Lemma invariant_subseteq (mm : MempoolManager)
    (f : gmap string MempoolTransaction -> gmap string MempoolTransaction) :
  f (transactions mm) ⊆ transactions mm ->
  invariant mm -> invariant (set_transactions f mm).
Proof.
  intros Hsub (Hmax & Hsize & Hwk). unfold invariant. simpl.
  split; [exact Hmax | split].
  - apply map_subseteq_size in Hsub. lia.
  - eapply well_keyed_subseteq; eassumption.
Qed.

Lemma fold_delete_subseteq (keys : list string)
    (txs : gmap string MempoolTransaction) :
  fold_left (fun m k => delete k m) keys txs ⊆ txs.
Proof.
  revert txs. induction keys as [|k keys IH]; intros txs; simpl.
  - reflexivity.
  - etransitivity; [apply IH | apply delete_subseteq].
Qed.

Lemma fold_remove_confirmed_subseteq (ids : list (list byte))
    (txs : gmap string MempoolTransaction) :
  fold_left remove_confirmed ids txs ⊆ txs.
Proof.
  revert txs. induction ids as [|id ids IH]; intros txs; simpl.
  - reflexivity.
  - etransitivity; [apply IH|]. unfold remove_confirmed.
    destruct (txs !! sprintf_x id); [apply delete_subseteq | reflexivity].
Qed.

(** The capacity check of [AddTransaction] on a pool with the
    invariant: it returns, and either the pool was below capacity and
    is untouched, or it was exactly full and lost one entry of least
    timestamp. *)
Lemma capacity_check_run (mm : MempoolManager)
    (order : list (string * MempoolTransaction)) :
  invariant mm ->
  order ≡ₚ map_to_list (transactions mm) ->
  exists mm1,
    (if Z.of_nat (size (transactions mm)) >=? maxSize mm
     then evictOldestTransaction order else ret tt) mm
    = {| exit := Returned tt; state := mm1; events := [] |}
    /\ ((Z.of_nat (size (transactions mm)) < maxSize mm /\ mm1 = mm)
        \/ (Z.of_nat (size (transactions mm)) = maxSize mm
            /\ exists k e,
                 transactions mm !! k = Some e
                 /\ (forall k' e', transactions mm !! k' = Some e' ->
                                   Timestamp e <= Timestamp e')
                 /\ mm1 = set_transactions (delete k) mm)).
Proof.
  intros (Hmax & Hsize & Hwk) Hperm.
  destruct (Z.geb_spec (Z.of_nat (size (transactions mm))) (maxSize mm))
    as [Hfull|Hroom].
  - assert (Hnz : size (transactions mm) <> 0%nat) by lia.
    destruct (scan_oldest_map _ _ Hperm (well_keyed_no_empty_key _ Hwk) Hnz)
      as (e & Hk & Hne & Hmin).
    exists (set_transactions (delete (fst (scan_oldest order))) mm).
    split.
    + apply evictOldestTransaction_run; [exact Hne|].
      apply (Hwk _ _ Hk).
    + right. split; [lia|].
      exists (fst (scan_oldest order)), e. auto.
  - exists mm. split; [reflexivity|]. left. split; [lia | reflexivity].
Qed.

Lemma AddTransaction_state (mm : MempoolManager)
    (tx : TransactionInterface) (now : Z)
    (order : list (string * MempoolTransaction)) :
  invariant mm ->
  order ≡ₚ map_to_list (transactions mm) ->
  transactions mm !! sprintf_x (GetID tx) = None ->
  exists mm1,
    state (AddTransaction tx now order mm)
    = set_transactions (insert (sprintf_x (GetID tx)) (new_entry tx now)) mm1
    /\ (returned (AddTransaction tx now order mm) ->
        (8 <= String.length (sprintf_x (GetID tx)))%nat)
    /\ ((Z.of_nat (size (transactions mm)) < maxSize mm /\ mm1 = mm)
        \/ (Z.of_nat (size (transactions mm)) = maxSize mm
            /\ exists k e,
                 transactions mm !! k = Some e
                 /\ (forall k' e', transactions mm !! k' = Some e' ->
                                   Timestamp e <= Timestamp e')
                 /\ mm1 = set_transactions (delete k) mm)).
Proof.
  intros Hinv Hperm Hfresh.
  destruct (capacity_check_run mm order Hinv Hperm) as (mm1 & Hrun & Hcases).
  exists mm1.
  rewrite (AddTransaction_fresh_run mm mm1 tx now order Hfresh Hrun).
  unfold returned, slice_prefix_ok.
  destruct (Nat.leb_spec 8 (String.length (sprintf_x (GetID tx))));
    simpl; auto.
  repeat split; auto. contradiction.
Qed.

(** Adding to a pool with the invariant never leaves more than
    [maxSize] entries, whether the call returns or panics on its log
    line. *)
Lemma AddTransaction_size (mm : MempoolManager)
    (tx : TransactionInterface) (now : Z)
    (order : list (string * MempoolTransaction)) :
  invariant mm ->
  order ≡ₚ map_to_list (transactions mm) ->
  Z.of_nat (size (transactions (state (AddTransaction tx now order mm))))
  <= maxSize mm
  /\ maxSize (state (AddTransaction tx now order mm)) = maxSize mm.
Proof.
  intros Hinv Hperm.
  destruct (transactions mm !! sprintf_x (GetID tx)) as [e|] eqn:Hlook.
  - rewrite (AddTransaction_duplicate_run _ _ _ _ _ Hlook). simpl.
    split; [apply Hinv | reflexivity].
  - destruct (AddTransaction_state mm tx now order Hinv Hperm Hlook)
      as (mm1 & -> & _ & [[Hroom ->] | [Hfull (k & e & Hk & _ & ->)]]);
      simpl.
    + rewrite map_size_insert_None by exact Hlook. split; [lia|reflexivity].
    + rewrite map_size_insert_None
        by (apply lookup_delete_None; right; exact Hlook).
      rewrite map_size_delete_Some by (rewrite Hk; eauto).
      destruct Hinv as (Hmax & _ & _).
      split; [lia | reflexivity].
Qed.

Lemma AddTransaction_invariant (mm : MempoolManager)
    (tx : TransactionInterface) (now : Z)
    (order : list (string * MempoolTransaction)) :
  invariant mm ->
  order ≡ₚ map_to_list (transactions mm) ->
  returned (AddTransaction tx now order mm) ->
  invariant (state (AddTransaction tx now order mm)).
Proof.
  intros Hinv Hperm Hret.
  destruct (AddTransaction_size mm tx now order Hinv Hperm) as [Hsz Hmax].
  destruct Hinv as (Hmax0 & Hsize0 & Hwk).
  split; [congruence|]. split; [rewrite Hmax; exact Hsz|].
  destruct (transactions mm !! sprintf_x (GetID tx)) as [e|] eqn:Hlook.
  - rewrite (AddTransaction_duplicate_run _ _ _ _ _ Hlook). exact Hwk.
  - destruct (AddTransaction_state mm tx now order
                (conj Hmax0 (conj Hsize0 Hwk)) Hperm Hlook)
      as (mm1 & Hst & Hlen & Hcases).
    rewrite Hst. simpl. intros k e Hk.
    destruct (decide (k = sprintf_x (GetID tx))) as [->|Hne].
    + rewrite lookup_insert_eq in Hk. inversion Hk. subst e. simpl.
      split; [reflexivity | apply Hlen, Hret].
    + rewrite lookup_insert_ne in Hk by congruence.
      apply (Hwk k e).
      destruct Hcases as [[_ ->] | [_ (k0 & e0 & _ & _ & ->)]];
        simpl in Hk; [exact Hk|].
      eapply lookup_weaken; [exact Hk | apply delete_subseteq].
Qed.

End MempoolInvariant.

Section MempoolReachable.
Import Eff Mempool.

Lemma run_op_add (tx : TransactionInterface) (now : Z)
    (order : list (string * MempoolTransaction)) (mm : MempoolManager) :
  state (run_op (OpAdd tx now order) mm)
  = state (AddTransaction tx now order mm)
  /\ (returned (run_op (OpAdd tx now order) mm)
      <-> returned (AddTransaction tx now order mm)).
Proof.
  unfold run_op, returned, bind.
  destruct (AddTransaction tx now order mm) as [[a|why] st ev]; simpl;
    tauto.
Qed.

(** Every call other than [AddTransaction] only takes entries away,
    whether it returns or panics. *)
Lemma run_op_shrinks (op : Op) (mm : MempoolManager) :
  (forall tx now order, op <> OpAdd tx now order) ->
  exists f, state (run_op op mm) = set_transactions f mm
            /\ f (transactions mm) ⊆ transactions mm.
Proof.
  intros Hop. destruct op as [tx now order|txID|ids|now|]; cbn [run_op].
  - destruct (Hop tx now order). reflexivity.
  - exists (delete (sprintf_x txID)). split; [|apply delete_subseteq].
    unfold RemoveTransaction. rewrite bind_modify.
    unfold slice_prefix. destruct (slice_prefix_ok _ _); reflexivity.
  - eexists. split; [reflexivity|]. apply fold_remove_confirmed_subseteq.
  - unfold CleanExpiredTransactions. rewrite bind_get.
    eexists. split; [reflexivity|]. apply fold_delete_subseteq.
  - exists (fun _ => ∅). split; [reflexivity|]. apply map_empty_subseteq.
Qed.

Lemma run_op_size (op : Op) (mm : MempoolManager) :
  invariant mm -> admissible op mm ->
  Z.of_nat (size (transactions (state (run_op op mm)))) <= maxSize mm.
Proof.
  intros Hinv Hadm. destruct op as [tx now order| | | |].
  1: { destruct (run_op_add tx now order mm) as [-> _].
       apply AddTransaction_size; assumption. }
  all: match goal with
       | |- context [run_op ?op ?m] =>
           destruct (run_op_shrinks op m) as (f & -> & Hsub);
           [intros; discriminate|]
       end;
    apply map_subseteq_size in Hsub; destruct Hinv as (_ & Hsz & _);
    simpl; lia.
Qed.

Lemma run_op_invariant (op : Op) (mm : MempoolManager) :
  invariant mm -> admissible op mm -> returned (run_op op mm) ->
  invariant (state (run_op op mm)).
Proof.
  intros Hinv Hadm Hret. destruct op as [tx now order| | | |].
  1: { destruct (run_op_add tx now order mm) as [-> Hiff].
       apply AddTransaction_invariant; [assumption..|]. apply Hiff, Hret. }
  all: match goal with
       | |- context [run_op ?op ?m] =>
           destruct (run_op_shrinks op m) as (f & -> & Hsub);
           [intros; discriminate|]
       end;
    apply invariant_subseteq; assumption.
Qed.

Lemma NewMempoolManager_invariant (address : string) :
  invariant (NewMempoolManager address).
Proof.
  split; [reflexivity|]. split.
  - simpl. rewrite map_size_empty. lia.
  - intros k e Hk. simpl in Hk. rewrite lookup_empty in Hk. discriminate.
Qed.

Lemma reachable_invariant (address : string) (mm : MempoolManager) :
  reachable address mm -> invariant mm.
Proof.
  induction 1 as [|mm op _ IH Hadm Hret].
  - apply NewMempoolManager_invariant.
  - apply run_op_invariant; assumption.
Qed.

(** The sample pools are reachable and hold [n] entries, up to the
    capacity. *)
Lemma filled_reachable (address : string) (n : nat) :
  (n <= 1000)%nat ->
  reachable address (filled address n)
  /\ size (transactions (filled address n)) = n
  /\ forall k e, transactions (filled address n) !! k = Some e ->
                 (String.length k < 2 * (4 + n))%nat.
Proof.
  induction n as [|i IH]; intros Hn.
  - split; [constructor|]. split; [apply map_size_empty|].
    intros k e Hk. simpl in Hk. rewrite lookup_empty in Hk. discriminate.
  - destruct IH as (Hreach & Hsize & Hkeys); [lia|].
    set (mm := filled address i) in *.
    set (order := map_to_list (transactions mm)).
    set (tx := sample_tx i).
    assert (Hinv : invariant mm) by (eapply reachable_invariant; eauto).
    assert (Hlen : String.length (sprintf_x (GetID tx)) = (2 * (4 + i))%nat).
    { rewrite sprintf_x_length. simpl. rewrite repeat_length. lia. }
    assert (Hfresh : transactions mm !! sprintf_x (GetID tx) = None).
    { destruct (transactions mm !! sprintf_x (GetID tx)) as [e|] eqn:He;
        [|reflexivity].
      apply Hkeys in He. lia. }
    assert (Hroom : (if Z.of_nat (size (transactions mm)) >=? maxSize mm
                     then evictOldestTransaction order else ret tt) mm
                    = {| exit := Returned tt; state := mm; events := [] |}).
    { destruct Hinv as (Hmax & _ & _). rewrite Hmax, Hsize.
      destruct (Z.geb_spec (Z.of_nat i) 1000); [lia | reflexivity]. }
    pose proof (AddTransaction_fresh_run mm mm tx (Z.of_nat i) order
                  Hfresh Hroom) as Hrun.
    assert (Hok : slice_prefix_ok (sprintf_x (GetID tx)) 8 = true).
    { unfold slice_prefix_ok. rewrite Hlen. apply Nat.leb_le. lia. }
    rewrite Hok in Hrun.
    change (filled address (S i))
      with (state (AddTransaction tx (Z.of_nat i) order mm)).
    split; [|split].
    + destruct (run_op_add tx (Z.of_nat i) order mm) as [<- Hiff].
      apply reach_call; [exact Hreach | simpl; reflexivity |].
      apply Hiff. unfold returned. rewrite Hrun. exact I.
    + rewrite Hrun. cbn [state transactions set_transactions].
      rewrite map_size_insert_None by exact Hfresh.
      f_equal. exact Hsize.
    + rewrite Hrun. cbn [state transactions set_transactions].
      intros k e Hk.
      destruct (decide (k = sprintf_x (GetID tx))) as [->|Hne].
      * rewrite Hlen. lia.
      * rewrite lookup_insert_ne in Hk by congruence.
        apply Hkeys in Hk. lia.
Qed.

End MempoolReachable.

(** The scenario of the specification: capacity 2, three admissions;
    the first transaction is evicted, the other two remain. *)
Example small_pool_evicts_first :
  dom (Mempool.transactions Mempool.small_pool_run)
  = {[ "0000000000"; "000000000000" ]}.
Proof. vm_compute. reflexivity. Qed.

(** C1.  In every pool reached from the new pool by calls of the
    mempool manager the number of entries is at most [maxSize], which
    is 1000, and every further call leaves at most [maxSize] entries.
    When [AddTransaction] is called on such a pool holding exactly
    [maxSize] entries with a transaction whose ID is not in the pool, it
    deletes one entry, an entry whose admission timestamp is the least
    in the pool, inserts the new entry, and the pool holds exactly
    [maxSize] entries again. *)
Theorem mempool_size_bounded (address : string)
    (mm : Mempool.MempoolManager) :
  Mempool.reachable address mm ->
  (Mempool.maxSize mm = 1000
   /\ Z.of_nat (size (Mempool.transactions mm)) <= Mempool.maxSize mm)
  /\ (forall op, Mempool.admissible op mm ->
        Z.of_nat (size (Mempool.transactions
                          (Eff.state (Mempool.run_op op mm))))
        <= Mempool.maxSize mm)
  /\ (forall tx now order,
        Z.of_nat (size (Mempool.transactions mm)) = Mempool.maxSize mm ->
        Mempool.transactions mm !! sprintf_x (GetID tx) = None ->
        order ≡ₚ map_to_list (Mempool.transactions mm) ->
        exists k e,
          Mempool.transactions mm !! k = Some e
          /\ (forall k' e', Mempool.transactions mm !! k' = Some e' ->
                Mempool.Timestamp e <= Mempool.Timestamp e')
          /\ Mempool.transactions
               (Eff.state (Mempool.AddTransaction tx now order mm))
             = <[sprintf_x (GetID tx) := Mempool.new_entry tx now]>
                 (delete k (Mempool.transactions mm))
          /\ Z.of_nat (size (Mempool.transactions
                               (Eff.state
                                  (Mempool.AddTransaction tx now order mm))))
             = Mempool.maxSize mm).
Proof.
  intros Hreach.
  pose proof (reachable_invariant address mm Hreach) as Hinv.
  split; [|split].
  - destruct Hinv as (Hmax & Hsz & _). auto.
  - intros op Hadm. apply run_op_size; assumption.
  - intros tx now order Hfull Hfresh Hperm.
    destruct (AddTransaction_state mm tx now order Hinv Hperm Hfresh)
      as (mm1 & Hst & _ & [[Hroom _] | [_ (k & e & Hk & Hmin & ->)]]);
      [lia|].
    exists k, e. rewrite Hst. simpl.
    split; [exact Hk|]. split; [exact Hmin|]. split; [reflexivity|].
    rewrite map_size_insert_None
      by (apply lookup_delete_None; right; exact Hfresh).
    rewrite map_size_delete_Some by (rewrite Hk; eauto).
    destruct Hinv as (Hmax & _ & _). lia.
Qed.

Lemma mempool_size_bounded_witness :
  let mm := Mempool.filled "localhost:3000" 1000 in
  let tx := Mempool.sample_tx 1000 in
  let order := map_to_list (Mempool.transactions mm) in
  Z.of_nat (size (Mempool.transactions mm)) = 1000
  /\ exists k e,
       Mempool.transactions mm !! k = Some e
       /\ (forall k' e', Mempool.transactions mm !! k' = Some e' ->
             Mempool.Timestamp e <= Mempool.Timestamp e')
       /\ Mempool.transactions
            (Eff.state (Mempool.AddTransaction tx 1000 order mm))
          = <[sprintf_x (GetID tx) := Mempool.new_entry tx 1000]>
              (delete k (Mempool.transactions mm))
       /\ Z.of_nat (size (Mempool.transactions
                            (Eff.state
                               (Mempool.AddTransaction tx 1000 order mm))))
          = Mempool.maxSize mm.
Proof.
  intros mm tx order.
  destruct (filled_reachable "localhost:3000" 1000 (le_n _))
    as (Hreach & Hsize & Hkeys).
  fold mm in Hreach, Hsize, Hkeys.
  destruct (mempool_size_bounded "localhost:3000" mm Hreach)
    as ((Hmax & _) & _ & Hfull).
  split; [rewrite Hsize; reflexivity|].
  apply Hfull.
  - rewrite Hmax, Hsize. reflexivity.
  - destruct (Mempool.transactions mm !! sprintf_x (GetID tx)) as [e|] eqn:He;
      [|reflexivity].
    apply Hkeys in He. rewrite sprintf_x_length in He.
    unfold tx, Mempool.sample_tx in He. cbn [GetID] in He.
    rewrite repeat_length in He. lia.
  - reflexivity.
Defined.

(** C6.  If the pool of a running process holds an entry with the ID of
    the transaction handed to [AddTransaction], the call returns the
    duplicate error, makes no outbound call and leaves the pool exactly
    as it was; and any entry of the pool with that ID is that one
    entry: no two entries share a transaction ID. *)
Theorem duplicate_transaction_rejected (address : string)
    (mm : Mempool.MempoolManager) (tx : TransactionInterface) (now : Z)
    (order : list (string * Mempool.MempoolTransaction))
    (k : string) (e : Mempool.MempoolTransaction) :
  Mempool.reachable address mm ->
  Mempool.transactions mm !! k = Some e ->
  GetID (Mempool.Transaction e) = GetID tx ->
  Mempool.AddTransaction tx now order mm
  = {| Eff.exit :=
         Returned (Some (ErrDuplicateTransaction (sprintf_x (GetID tx))));
       Eff.state := mm;
       Eff.events := [] |}
  /\ forall k' e',
       Mempool.transactions mm !! k' = Some e' ->
       GetID (Mempool.Transaction e') = GetID tx ->
       k' = k /\ e' = e.
Proof.
  intros Hreach Hk Hid.
  destruct (reachable_invariant address mm Hreach) as (_ & _ & Hwk).
  destruct (Hwk k e Hk) as [Hkey _]. rewrite Hid in Hkey. subst k.
  split.
  - apply (AddTransaction_duplicate_run mm tx now order e Hk).
  - intros k' e' Hk' Hid'.
    destruct (Hwk k' e' Hk') as [Hkey' _]. rewrite Hid' in Hkey'. subst k'.
    split; [reflexivity | congruence].
Qed.

Lemma duplicate_transaction_rejected_witness :
  let mm := Mempool.filled "localhost:3000" 2 in
  let tx := {| GetID := [x00; x00; x00; x00]; Serialize := [xff; xff] |} in
  Mempool.AddTransaction tx 7 [] mm
  = {| Eff.exit := Returned (Some (ErrDuplicateTransaction "00000000"));
       Eff.state := mm;
       Eff.events := [] |}
  /\ forall k' e',
       Mempool.transactions mm !! k' = Some e' ->
       GetID (Mempool.Transaction e') = GetID tx ->
       k' = "00000000" /\ e' = Mempool.new_entry (Mempool.sample_tx 0) 0.
Proof.
  intros mm tx.
  apply (duplicate_transaction_rejected "localhost:3000" mm tx 7 []
           "00000000" (Mempool.new_entry (Mempool.sample_tx 0) 0)).
  - apply (filled_reachable "localhost:3000" 2). lia.
  - vm_compute. reflexivity.
  - reflexivity.
Defined.

(** ** The peer table *)

Section PeerTable.
Import Eff Node.

Lemma ConnectToPeer_at_capacity (nm : NodeManager) (address : string)
    (now1 now2 : Z) (dial : option error) :
  address <> serverAddress nm ->
  (forall peer, peers nm !! address = Some peer -> Connected peer = false) ->
  maxPeers nm <= getConnectedPeerCount nm ->
  ConnectToPeer address now1 dial now2 nm
  = {| exit := Returned (Some (ErrMaxPeers (maxPeers nm)));
       state := nm; events := [] |}.
Proof.
  intros Hself Hconn Hfull. unfold ConnectToPeer. rewrite bind_get.
  apply String.eqb_neq in Hself. rewrite Hself.
  destruct (peers nm !! address) as [peer|] eqn:Hpeer.
  - rewrite (Hconn peer eq_refl).
    destruct (Z.geb_spec (getConnectedPeerCount nm) (maxPeers nm));
      [reflexivity | lia].
  - destruct (Z.geb_spec (getConnectedPeerCount nm) (maxPeers nm));
      [reflexivity | lia].
Qed.

Lemma UpdatePeerInfo_status (nm : NodeManager) (address : string)
    (height version now : Z) :
  status_of (state (UpdatePeerInfo address height version now nm)) address
  = Some PeerStatusConnected.
Proof.
  unfold UpdatePeerInfo, status_of. rewrite bind_get.
  destruct (peers nm !! address); simpl; rewrite lookup_insert_eq;
    reflexivity.
Qed.

Lemma DisconnectFromPeer_status (nm : NodeManager) (address : string)
    (peer : Peer) :
  peers nm !! address = Some peer ->
  status_of (state (DisconnectFromPeer address nm)) address
  = Some PeerStatusDisconnected.
Proof.
  intros Hpeer. unfold DisconnectFromPeer, status_of. simpl.
  rewrite lookup_alter_eq, Hpeer. reflexivity.
Qed.

Lemma BanPeer_status (nm : NodeManager) (address reason : string)
    (peer : Peer) :
  peers nm !! address = Some peer ->
  status_of (state (BanPeer address reason nm)) address
  = Some PeerStatusBanned.
Proof.
  intros Hpeer. unfold BanPeer, status_of. simpl.
  rewrite lookup_alter_eq, Hpeer. reflexivity.
Qed.

Lemma filter_length_Permutation {A} (f : A -> bool) (l l' : list A) :
  l ≡ₚ l' -> length (List.filter f l) = length (List.filter f l').
Proof.
  induction 1 as [|x l l' _ IH|x y l|l l' l'' _ IH1 _ IH2]; simpl.
  - reflexivity.
  - destruct (f x); simpl; congruence.
  - destruct (f x), (f y); reflexivity.
  - congruence.
Qed.

Lemma connected_entries_delete (ps : gmap string Peer) (address : string) :
  (connected_entries (delete address ps) <= connected_entries ps)%nat.
Proof.
  unfold connected_entries.
  destruct (ps !! address) as [old|] eqn:Hold.
  - rewrite <- (filter_length_Permutation _ _ _
                  (map_to_list_delete ps address old Hold)).
    cbn [List.filter snd]. destruct (is_connected old); cbn [length]; lia.
  - rewrite delete_id by exact Hold. lia.
Qed.

Lemma connected_entries_insert (ps : gmap string Peer) (address : string)
    (peer : Peer) :
  (connected_entries (<[address := peer]> ps)
   <= connected_entries ps + (if is_connected peer then 1 else 0))%nat.
Proof.
  pose proof (connected_entries_delete ps address) as Hdel.
  rewrite <- (insert_delete_eq ps). unfold connected_entries in *.
  rewrite (filter_length_Permutation _ _ _
             (map_to_list_insert (delete address ps) address peer
                (lookup_delete_eq ps address))).
  cbn [List.filter snd]. destruct (is_connected peer); cbn [length]; lia.
Qed.

(** [ConnectToPeer] either leaves the table alone (one of its three
    guards fired) or, below capacity, puts a fresh entry under the
    address: Disconnected when the dial failed, Connected when it
    succeeded. *)
Lemma ConnectToPeer_state (nm : NodeManager) (address : string)
    (now1 now2 : Z) (dial : option error) :
  state (ConnectToPeer address now1 dial now2 nm) = nm
  \/ (getConnectedPeerCount nm < maxPeers nm
      /\ exists peer,
           state (ConnectToPeer address now1 dial now2 nm)
           = set_peers (insert address peer) nm
           /\ (peer = new_peer address now1 PeerStatusDisconnected false
               \/ peer = new_peer address now2 PeerStatusConnected true)).
Proof.
  unfold ConnectToPeer. rewrite bind_get.
  destruct (String.eqb address (serverAddress nm)); [left; reflexivity|].
  destruct (match peers nm !! address with
            | Some peer => Connected peer
            | None => false
            end); [left; reflexivity|].
  destruct (Z.geb_spec (getConnectedPeerCount nm) (maxPeers nm))
    as [Hfull|Hroom]; [left; reflexivity|].
  right. split; [exact Hroom|].
  rewrite bind_modify, bind_emit. cbn [state].
  destruct dial as [err|]; rewrite bind_modify; cbn [ret state];
    [exists (new_peer address now1 PeerStatusDisconnected false)
    |exists (new_peer address now2 PeerStatusConnected true)];
    (split; [|auto]);
    unfold set_peers; cbn [peers serverAddress bootstrapNodes maxPeers
                             running];
    rewrite insert_insert_eq; reflexivity.
Qed.

(** [ConnectToPeer] keeps the number of connected peers within
    [maxPeers]: it is the guarded way of marking a peer Connected. *)
Lemma ConnectToPeer_within_maxPeers (nm : NodeManager) (address : string)
    (now1 now2 : Z) (dial : option error) :
  getConnectedPeerCount nm <= maxPeers nm ->
  getConnectedPeerCount (state (ConnectToPeer address now1 dial now2 nm))
  <= maxPeers (state (ConnectToPeer address now1 dial now2 nm)).
Proof.
  intros Hbound.
  destruct (ConnectToPeer_state nm address now1 now2 dial)
    as [-> | (Hroom & peer & -> & Hpeer)]; [exact Hbound|].
  pose proof (connected_entries_insert (peers nm) address peer) as Hins.
  unfold getConnectedPeerCount, len in *.
  fold (connected_entries (peers nm)) in *.
  cbn [peers set_peers maxPeers].
  fold (connected_entries (<[address:=peer]> (peers nm))).
  destruct (is_connected peer); lia.
Qed.

End PeerTable.

(** C2, at the input on which the code departs from it.  Nine version
    handshakes from nine addresses reach [UpdatePeerInfo] nine times;
    it marks every one of them Connected without consulting [maxPeers],
    and the table of a new node manager then counts nine connected
    peers against a maximum of eight. *)
Theorem UpdatePeerInfo_exceeds_maxPeers :
  let nm := Node.after_handshakes Node.nine_addresses
              (Node.NewNodeManager "localhost:3000") in
  Node.maxPeers nm = 8 /\ Node.getConnectedPeerCount nm = 9.
Proof. vm_compute. split; reflexivity. Qed.

(** C3, at the input on which the code departs from it.  A peer whose
    status is Banned is set to Connected by [UpdatePeerInfo] and to
    Disconnected by [DisconnectFromPeer]: neither looks at the status it
    overwrites. *)
Theorem banned_status_overwritten (nm : Node.NodeManager) (address : string)
    (peer : Node.Peer) (height version now : Z) :
  Node.peers nm !! address = Some peer ->
  Node.Status peer = Node.PeerStatusBanned ->
  Node.status_of
    (Eff.state (Node.UpdatePeerInfo address height version now nm)) address
  = Some Node.PeerStatusConnected
  /\ Node.status_of (Eff.state (Node.DisconnectFromPeer address nm)) address
     = Some Node.PeerStatusDisconnected.
Proof.
  intros Hpeer _. split.
  - apply UpdatePeerInfo_status.
  - apply (DisconnectFromPeer_status nm address peer Hpeer).
Qed.

Lemma banned_status_overwritten_witness :
  let nm := Node.one_banned "localhost:3000" "10.0.0.1:3000" in
  Node.status_of nm "10.0.0.1:3000" = Some Node.PeerStatusBanned
  /\ Node.status_of
       (Eff.state (Node.UpdatePeerInfo "10.0.0.1:3000" 12 1 60 nm))
       "10.0.0.1:3000"
     = Some Node.PeerStatusConnected
  /\ Node.status_of
       (Eff.state (Node.DisconnectFromPeer "10.0.0.1:3000" nm))
       "10.0.0.1:3000"
     = Some Node.PeerStatusDisconnected.
Proof.
  intros nm. split; [vm_compute; reflexivity|].
  apply (banned_status_overwritten nm "10.0.0.1:3000"
           (Node.new_peer "10.0.0.1:3000" 0 Node.PeerStatusBanned false)).
  - vm_compute. reflexivity.
  - reflexivity.
Defined.

(** ** The handlers *)

Section Handlers.
Import Eff Server.

Lemma bytes_all_equal_true (a b : list byte) :
  length a = length b -> (bytes_all_equal a b = true <-> a = b).
Proof.
  revert b. induction a as [|x a IH]; intros [|y b] Hlen;
    simpl in *; try discriminate.
  - tauto.
  - destruct (Byte.eqb x y) eqn:Hxy.
    + apply Byte.byte_dec_bl in Hxy. subst y.
      rewrite IH by lia. split; congruence.
    + apply Byte.eqb_false in Hxy. split; [discriminate | congruence].
Qed.

Lemma BytesEqual_true (a b : list byte) : BytesEqual a b = true <-> a = b.
Proof.
  unfold BytesEqual, len.
  destruct (Z.eqb_spec (Z.of_nat (length a)) (Z.of_nat (length b)))
    as [Hlen|Hlen]; simpl.
  - apply bytes_all_equal_true. lia.
  - split; [discriminate | intros ->; lia].
Qed.

Lemma BytesEqual_decide (a b : list byte) :
  negb (BytesEqual a b) = bool_decide (a <> b).
Proof.
  destruct (BytesEqual a b) eqn:Heq; simpl; symmetry.
  - apply BytesEqual_true in Heq. apply bool_decide_eq_false. tauto.
  - apply bool_decide_eq_true. intros Hab.
    apply BytesEqual_true in Hab. congruence.
Qed.

(** The rebuilt queue holds the hashes other than [blockHash], in
    their order. *)
Lemma drop_hash_filter (blockHash : list byte) (queue : list (list byte)) :
  drop_hash blockHash queue = filter (fun b => b <> blockHash) queue.
Proof.
  unfold drop_hash.
  assert (Hgen : forall acc,
             fold_left
               (fun newInTransit b =>
                  if negb (BytesEqual b blockHash) then newInTransit ++ [b]
                  else newInTransit) queue acc
             = acc ++ filter (fun b => b <> blockHash) queue).
  { induction queue as [|b queue IH]; intros acc; simpl.
    - rewrite app_nil_r. reflexivity.
    - rewrite IH, BytesEqual_decide, filter_cons.
      destruct (decide (b <> blockHash)) as [Hne|Heq].
      + rewrite bool_decide_eq_true_2 by exact Hne.
        rewrite <- app_assoc. reflexivity.
      + rewrite bool_decide_eq_false_2 by exact Heq. reflexivity. }
  apply Hgen.
Qed.

Lemma filter_absent (h : list byte) (queue : list (list byte)) :
  h ∉ queue -> filter (fun b => b <> h) queue = queue.
Proof.
  induction queue as [|b queue IH]; intros Hnotin; [reflexivity|].
  apply not_elem_of_cons in Hnotin. destruct Hnotin as [Hne Hrest].
  rewrite filter_cons_True by congruence. rewrite IH by exact Hrest.
  reflexivity.
Qed.

(** An inventory of blocks with a first hash. *)
Lemma HandleInv_block_run (s : Server) (invData : Protocol.InvData)
    (h1 : list byte) (rest : list (list byte)) :
  Protocol.iType invData = "block" ->
  Protocol.Items invData = h1 :: rest ->
  HandleInv invData s
  = {| exit := Returned tt;
       state := set_blocksInTransit (filter (fun b => b <> h1) rest) s;
       events :=
         [Protocol.SendMessage (Protocol.iAddrFrom invData)
            Protocol.CmdGetData
            (Protocol.PGetData
               {| Protocol.gdAddrFrom := Address s;
                  Protocol.gdType := "block";
                  Protocol.ID := h1 |})] |}.
Proof.
  intros Htype Hitems. unfold HandleInv. rewrite Htype, Hitems. simpl.
  unfold bind, modify, SendGetData, get, emit, ret. simpl.
  rewrite drop_hash_filter, filter_cons_False by tauto.
  reflexivity.
Qed.

(** An inventory without items. *)
Lemma HandleInv_empty_run (s : Server) (invData : Protocol.InvData) :
  Protocol.Items invData = [] ->
  HandleInv invData s
  = if String.eqb (Protocol.iType invData) "block"
    then {| exit := Panicked "index out of range [0] with length 0";
            state := set_blocksInTransit [] s; events := [] |}
    else if String.eqb (Protocol.iType invData) "tx"
    then {| exit := Panicked "index out of range [0] with length 0";
            state := s; events := [] |}
    else {| exit := Returned tt; state := s; events := [] |}.
Proof.
  intros Hitems. unfold HandleInv. rewrite Hitems.
  destruct (String.eqb (Protocol.iType invData) "block") eqn:Hblock.
  - reflexivity.
  - rewrite bind_ret.
    destruct (String.eqb (Protocol.iType invData) "tx"); reflexivity.
Qed.

End Handlers.

(** C7, as the code has it.  For an inventory of type "block" with the
    hashes h1, h2, ..., hn, [HandleInv] returns after exactly one
    outbound call, a getdata request for block h1 sent to the
    advertiser, and leaves as the queue the hashes among h2, ..., hn
    that differ from h1, in their order: every occurrence of h1 is
    removed, not the first only.  The queue is h2, ..., hn when h1 does
    not occur again. *)
Theorem HandleInv_block (s : Server.Server) (invData : Protocol.InvData)
    (h1 : list byte) (rest : list (list byte)) :
  Protocol.iType invData = "block" ->
  Protocol.Items invData = h1 :: rest ->
  Server.HandleInv invData s
  = {| Eff.exit := Returned tt;
       Eff.state :=
         Server.set_blocksInTransit (filter (fun b => b <> h1) rest) s;
       Eff.events :=
         [Protocol.SendMessage (Protocol.iAddrFrom invData)
            Protocol.CmdGetData
            (Protocol.PGetData
               {| Protocol.gdAddrFrom := Server.Address s;
                  Protocol.gdType := "block";
                  Protocol.ID := h1 |})] |}
  /\ (h1 ∉ rest ->
      Server.blocksInTransit (Eff.state (Server.HandleInv invData s)) = rest).
Proof.
  intros Htype Hitems.
  rewrite (HandleInv_block_run s invData h1 rest Htype Hitems).
  split; [reflexivity|]. intros Hnotin. simpl.
  apply filter_absent, Hnotin.
Qed.

Lemma HandleInv_block_witness :
  let s := Server.NewServer "localhost:3000" 5 in
  let invData := {| Protocol.iAddrFrom := "10.0.0.1:3000";
                    Protocol.iType := "block";
                    Protocol.Items := [[x0a]; [x0b]; [x0c]] |} in
  Server.HandleInv invData s
  = {| Eff.exit := Returned tt;
       Eff.state := Server.set_blocksInTransit [[x0b]; [x0c]] s;
       Eff.events :=
         [Protocol.SendMessage "10.0.0.1:3000" "getdata"
            (Protocol.PGetData
               {| Protocol.gdAddrFrom := "localhost:3000";
                  Protocol.gdType := "block";
                  Protocol.ID := [x0a] |})] |}.
Proof.
  intros s invData.
  apply (HandleInv_block s invData [x0a] [[x0b]; [x0c]]); reflexivity.
Defined.

(** C7, as stated, fails when h1 occurs again in the list: for the
    hashes h1, h2, h1 the queue left is h2 alone, not h2, h1. *)
Lemma HandleInv_repeated_hash :
  let s := Server.NewServer "localhost:3000" 5 in
  let invData := {| Protocol.iAddrFrom := "10.0.0.1:3000";
                    Protocol.iType := "block";
                    Protocol.Items := [[x0a]; [x0b]; [x0a]] |} in
  Server.blocksInTransit (Eff.state (Server.HandleInv invData s)) = [[x0b]]
  /\ Server.blocksInTransit (Eff.state (Server.HandleInv invData s))
     <> [[x0b]; [x0a]].
Proof.
  intros s invData. split; [reflexivity|]. vm_compute. discriminate.
Qed.

(** C10.  For an inventory whose list of items is empty and whose type
    is "block" or "tx", [HandleInv] panics on [invData.Items[0]] (index
    out of range) before any outbound call; it neither ignores the
    message nor returns an error. *)
Theorem HandleInv_empty_items_panics (s : Server.Server)
    (invData : Protocol.InvData) :
  Protocol.Items invData = [] ->
  Protocol.iType invData = "block" \/ Protocol.iType invData = "tx" ->
  Eff.exit (Server.HandleInv invData s)
  = Panicked "index out of range [0] with length 0"
  /\ Eff.events (Server.HandleInv invData s) = [].
Proof.
  intros Hitems Htype. rewrite (HandleInv_empty_run s invData Hitems).
  destruct Htype as [-> | ->]; simpl; split; reflexivity.
Qed.

Lemma HandleInv_empty_items_panics_witness :
  let s := Server.NewServer "localhost:3000" 5 in
  (Eff.exit
     (Server.HandleInv
        {| Protocol.iAddrFrom := "10.0.0.1:3000"; Protocol.iType := "block";
           Protocol.Items := [] |} s)
   = Panicked "index out of range [0] with length 0"
   /\ Eff.events
        (Server.HandleInv
           {| Protocol.iAddrFrom := "10.0.0.1:3000"; Protocol.iType := "block";
              Protocol.Items := [] |} s) = [])
  /\ (Eff.exit
        (Server.HandleInv
           {| Protocol.iAddrFrom := "10.0.0.1:3000"; Protocol.iType := "tx";
              Protocol.Items := [] |} s)
      = Panicked "index out of range [0] with length 0"
      /\ Eff.events
           (Server.HandleInv
              {| Protocol.iAddrFrom := "10.0.0.1:3000"; Protocol.iType := "tx";
                 Protocol.Items := [] |} s) = []).
Proof.
  intros s. split.
  - apply HandleInv_empty_items_panics; [reflexivity | left; reflexivity].
  - apply HandleInv_empty_items_panics; [reflexivity | right; reflexivity].
Defined.

Section VersionHandshake.
Import Eff Server.

Lemma UpdatePeerInfo_run (nm : Node.NodeManager) (address : string)
    (height version now : Z) :
  exit (Node.UpdatePeerInfo address height version now nm) = Returned tt
  /\ events (Node.UpdatePeerInfo address height version now nm) = [].
Proof.
  unfold Node.UpdatePeerInfo. rewrite bind_get.
  destruct (Node.peers nm !! address); split; reflexivity.
Qed.

Lemma on_NodeManager_UpdatePeerInfo (s : Server) (address : string)
    (height version now : Z) :
  exit (on_NodeManager
          (Node.UpdatePeerInfo address height version now) s)
  = Returned tt
  /\ events (on_NodeManager
               (Node.UpdatePeerInfo address height version now) s) = [].
Proof.
  unfold on_NodeManager. destruct (NodeManager s) as [nm|].
  - apply UpdatePeerInfo_run.
  - split; reflexivity.
Qed.

(** The outbound calls of [HandleVersion] are those of its height
    comparison; the bookkeeping after it makes none and returns. *)
Lemma HandleVersion_run (s : Server) (versionData : Protocol.VersionData)
    (now : Z) :
  exit (HandleVersion versionData now s) = Returned tt
  /\ events (HandleVersion versionData now s)
     = if bestHeight s <? Protocol.BestHeight versionData
       then events (SendGetBlocks (Protocol.vAddrFrom versionData) s)
       else if bestHeight s >? Protocol.BestHeight versionData
       then events (SendVersion (Protocol.vAddrFrom versionData) s)
       else [].
Proof.
  unfold HandleVersion. rewrite bind_get.
  set (reply :=
         if bestHeight s <? Protocol.BestHeight versionData
         then SendGetBlocks (Protocol.vAddrFrom versionData)
         else if bestHeight s >? Protocol.BestHeight versionData
         then SendVersion (Protocol.vAddrFrom versionData)
         else ret tt).
  assert (Hreply : exists ev,
             reply s = {| exit := Returned tt; state := s; events := ev |}
             /\ ev = if bestHeight s <? Protocol.BestHeight versionData
                     then events (SendGetBlocks
                                    (Protocol.vAddrFrom versionData) s)
                     else if bestHeight s >? Protocol.BestHeight versionData
                     then events (SendVersion
                                    (Protocol.vAddrFrom versionData) s)
                     else []).
  { unfold reply.
    destruct (bestHeight s <? Protocol.BestHeight versionData);
      [|destruct (bestHeight s >? Protocol.BestHeight versionData)];
      eexists; split; reflexivity. }
  destruct Hreply as (ev & Hrun & Hev).
  rewrite (bind_returned _ _ _ _ _ _ Hrun). cbn [exit events].
  rewrite <- Hev. clear Hev Hrun reply.
  set (upd := on_NodeManager _).
  assert (Hupd : forall s', exit (upd s') = Returned tt
                            /\ events (upd s') = []).
  { intros s'. apply on_NodeManager_UpdatePeerInfo. }
  destruct (NodeIsKnown s (Protocol.vAddrFrom versionData)).
  - rewrite bind_ret. destruct (Hupd s) as [-> ->].
    rewrite app_nil_r. split; reflexivity.
  - rewrite bind_modify. destruct (Hupd
      (set_KnownNodes (insert (Protocol.vAddrFrom versionData) true) s))
      as [-> ->].
    rewrite app_nil_r. split; reflexivity.
Qed.

End VersionHandshake.

(** C9.  [HandleVersion] returns, and its outbound calls are: one
    getblocks request to the advertiser when the advertised best height
    exceeds the local one; one version message to the advertiser when
    the local best height exceeds the advertised one; none when the two
    heights are equal. *)
Theorem HandleVersion_reply (s : Server.Server)
    (versionData : Protocol.VersionData) (now : Z) :
  Eff.exit (Server.HandleVersion versionData now s) = Returned tt
  /\ (Server.bestHeight s < Protocol.BestHeight versionData ->
      Eff.events (Server.HandleVersion versionData now s)
      = [Protocol.SendMessage (Protocol.vAddrFrom versionData)
           Protocol.CmdGetBlocks
           (Protocol.PGetBlocks
              {| Protocol.gbAddrFrom := Server.Address s |})])
  /\ (Server.bestHeight s > Protocol.BestHeight versionData ->
      Eff.events (Server.HandleVersion versionData now s)
      = [Protocol.SendMessage (Protocol.vAddrFrom versionData)
           Protocol.CmdVersion
           (Protocol.PVersion
              {| Protocol.Version := 1;
                 Protocol.BestHeight := int32 (Server.bestHeight s);
                 Protocol.vAddrFrom := Server.Address s |})])
  /\ (Server.bestHeight s = Protocol.BestHeight versionData ->
      Eff.events (Server.HandleVersion versionData now s) = []).
Proof.
  destruct (HandleVersion_run s versionData now) as [Hexit Hev].
  split; [exact Hexit|]. rewrite Hev.
  destruct (Z.ltb_spec (Server.bestHeight s)
              (Protocol.BestHeight versionData)) as [Hlt|Hge];
    [|destruct (Z.gtb_spec (Server.bestHeight s)
                  (Protocol.BestHeight versionData)) as [Hgt|Hle]];
    repeat split; intros; try lia; reflexivity.
Qed.

Lemma HandleVersion_reply_witness :
  let s := Server.NewServer "localhost:3000" 5 in
  let ahead := {| Protocol.Version := 1; Protocol.BestHeight := 10;
                  Protocol.vAddrFrom := "10.0.0.1:3000" |} in
  let behind := {| Protocol.Version := 1; Protocol.BestHeight := 2;
                   Protocol.vAddrFrom := "10.0.0.1:3000" |} in
  let level := {| Protocol.Version := 1; Protocol.BestHeight := 5;
                  Protocol.vAddrFrom := "10.0.0.1:3000" |} in
  Eff.events (Server.HandleVersion ahead 0 s)
  = [Protocol.SendMessage "10.0.0.1:3000" "getblocks"
       (Protocol.PGetBlocks {| Protocol.gbAddrFrom := "localhost:3000" |})]
  /\ Eff.events (Server.HandleVersion behind 0 s)
     = [Protocol.SendMessage "10.0.0.1:3000" "version"
          (Protocol.PVersion
             {| Protocol.Version := 1; Protocol.BestHeight := 5;
                Protocol.vAddrFrom := "localhost:3000" |})]
  /\ Eff.events (Server.HandleVersion level 0 s) = [].
Proof.
  intros s ahead behind level. split; [|split].
  - apply (HandleVersion_reply s ahead 0). simpl. lia.
  - apply (HandleVersion_reply s behind 0). simpl. lia.
  - apply (HandleVersion_reply s level 0). reflexivity.
Defined.

(** ** Chain conflicts *)

Section LongestChain.
Import Eff Server.

Lemma validateChainInfo_true (chain : ChainInfo) :
  validateChainInfo chain = true
  <-> 0 <= Height chain /\ Hash chain <> [].
Proof.
  unfold validateChainInfo, len. rewrite andb_true_iff.
  destruct (Z.geb_spec (Height chain) 0),
    (Z.gtb_spec (Z.of_nat (length (Hash chain))) 0);
    destruct (Hash chain); simpl in *; split; intros [? ?];
    split; try congruence; try lia.
Qed.




(** Under the loop semantics of Go 1.21 and earlier the pointer kept
    in [longest] follows the loop variable: the function returns the
    last candidate whenever some candidate passed the check. *)
Remark findLongestChain_shared_variable_last :
  let a := {| NodeAddr := "10.0.0.1:3000"; Height := 10; Hash := [x01] |} in
  let b := {| NodeAddr := "10.0.0.2:3000"; Height := 3; Hash := [] |} in
  findLongestChain [a; b] = Some a
  /\ findLongestChain_shared_variable [a; b] = Some b.
Proof. split; reflexivity. Qed.

End LongestChain.


(** * Further properties of the package *)

(** ** The length prefix *)

Lemma byte_of_Z_of_byte (b : byte) : byte_of_Z (Z_of_byte b) = b.
Proof.
  unfold byte_of_Z, Z_of_byte.
  pose proof (Byte.to_N_bounded b) as Hb.
  rewrite Z.mod_small by lia. rewrite N2Z.id, Byte.of_to_N. reflexivity.
Qed.

Lemma byte_bit_high (b : byte) (i : Z) :
  8 <= i -> Z.testbit (Z_of_byte b) i = false.
Proof.
  intros Hi. pose proof (Z_of_byte_range b) as Hb.
  rewrite <- (Z.mod_small (Z_of_byte b) (2 ^ 8)) by (simpl; lia).
  apply Z.mod_pow2_bits_high. lia.
Qed.

Lemma byte_bit_shifted (b : byte) (k i : Z) :
  0 <= k -> 0 <= i ->
  Z.testbit (Z.shiftl (Z_of_byte b) k) i
  = (k <=? i) && (i <? k + 8) && Z.testbit (Z_of_byte b) (i - k).
Proof.
  intros Hk Hi. destruct (Z.leb_spec k i) as [Hle|Hlt].
  - rewrite Z.shiftl_spec_high by lia. simpl.
    destruct (Z.ltb_spec i (k + 8)) as [Hin|Hout]; [reflexivity|].
    apply byte_bit_high. lia.
  - rewrite Z.shiftl_spec_low by lia. reflexivity.
Qed.

(** The integer four bytes stand for, bit by bit. *)
Lemma four_bytes_bit (b0 b1 b2 b3 : byte) (i : Z) :
  0 <= i ->
  Z.testbit
    (Z.lor (Z.lor (Z.lor (Z.shiftl (Z_of_byte b0) 24)
                         (Z.shiftl (Z_of_byte b1) 16))
                  (Z.shiftl (Z_of_byte b2) 8))
           (Z_of_byte b3)) i
  = if i <? 8 then Z.testbit (Z_of_byte b3) i
    else if i <? 16 then Z.testbit (Z_of_byte b2) (i - 8)
    else if i <? 24 then Z.testbit (Z_of_byte b1) (i - 16)
    else if i <? 32 then Z.testbit (Z_of_byte b0) (i - 24)
    else false.
Proof.
  intros Hi. rewrite !Z.lor_spec, !byte_bit_shifted by lia.
  assert (H3 : 8 <= i -> Z.testbit (Z_of_byte b3) i = false)
    by apply byte_bit_high.
  destruct (Z.ltb_spec i 8), (Z.ltb_spec i 16), (Z.ltb_spec i 24),
    (Z.ltb_spec i 32); try lia;
    rewrite ?H3 by lia;
    repeat match goal with
      | |- context [?a <=? i] =>
          destruct (Z.leb_spec a i); try lia
      | |- context [i <? ?a] =>
          destruct (Z.ltb_spec i a); try lia
      end;
    cbn [andb orb]; rewrite ?orb_false_r; reflexivity.
Qed.

(** X1.  The four-byte length prefix keeps the low 32 bits of the
    length: [BytesToInt] applied to [IntToBytes n] gives [n mod 2^32]
    for every integer [n], so a length of 2^32 or more is written as a
    smaller one; and every group of four bytes is the prefix of the
    number it decodes to, which lies between 0 and 2^32 - 1. *)
Theorem length_prefix_round_trips :
  (forall n : Z,
     Protocol.BytesToInt (Protocol.IntToBytes n) = Returned (n mod 2 ^ 32))
  /\ (forall b0 b1 b2 b3 : byte,
        exists n,
          Protocol.BytesToInt [b0; b1; b2; b3] = Returned n
          /\ 0 <= n < 2 ^ 32
          /\ Protocol.IntToBytes n = [b0; b1; b2; b3]).
Proof.
  split.
  - intros n.
    assert (Hr : 0 <= n mod 2 ^ 32 < 2 ^ 32) by (apply Z.mod_pos_bound; lia).
    rewrite <- (BytesToInt_IntToBytes (n mod 2 ^ 32) Hr).
    f_equal. unfold Protocol.IntToBytes.
    assert (Hbyte : forall k, 0 <= k <= 24 ->
               byte_of_Z (Z.shiftr (n mod 2 ^ 32) k)
               = byte_of_Z (Z.shiftr n k)).
    { intros k Hk. unfold byte_of_Z. do 3 f_equal.
      apply Z.bits_inj'. intros i Hi. change 256 with (2 ^ 8).
      rewrite !Z.testbit_mod_pow2, !Z.shiftr_spec, Z.testbit_mod_pow2 by lia.
      destruct (Z.ltb_spec i 8); [|reflexivity]. simpl.
      destruct (Z.ltb_spec (i + k) 32); [reflexivity | lia]. }
    rewrite <- (Hbyte 24), <- (Hbyte 16), <- (Hbyte 8) by lia.
    pose proof (Hbyte 0) as H0. rewrite !Z.shiftr_0_r in H0.
    rewrite <- H0 by lia. reflexivity.
  - intros b0 b1 b2 b3. eexists. split; [reflexivity|].
    set (n := Z.lor _ _).
    assert (Hbits : forall i, 0 <= i -> Z.testbit n i
                = if i <? 8 then Z.testbit (Z_of_byte b3) i
                  else if i <? 16 then Z.testbit (Z_of_byte b2) (i - 8)
                  else if i <? 24 then Z.testbit (Z_of_byte b1) (i - 16)
                  else if i <? 32 then Z.testbit (Z_of_byte b0) (i - 24)
                  else false).
    { intros i Hi. apply four_bytes_bit. exact Hi. }
    assert (Hnonneg : 0 <= n).
    { apply Z.bits_iff_nonneg_ex. exists 32. intros i Hi.
      rewrite Hbits by lia.
      destruct (Z.ltb_spec i 8), (Z.ltb_spec i 16), (Z.ltb_spec i 24),
        (Z.ltb_spec i 32); try lia; try reflexivity. }
    assert (Hmod : n mod 2 ^ 32 = n).
    { apply Z.bits_inj'. intros i Hi.
      rewrite Z.testbit_mod_pow2 by lia.
      destruct (Z.ltb_spec i 32) as [Hlt|Hge]; [reflexivity|].
      rewrite Hbits by lia.
      destruct (Z.ltb_spec i 8), (Z.ltb_spec i 16), (Z.ltb_spec i 24),
        (Z.ltb_spec i 32); try lia; try reflexivity. }
    split.
    { rewrite <- Hmod. apply Z.mod_pos_bound. lia. }
    unfold Protocol.IntToBytes.
    assert (Hbyte : forall k b,
               0 <= k ->
               (forall j, 0 <= j < 8 ->
                          Z.testbit n (j + k) = Z.testbit (Z_of_byte b) j) ->
               byte_of_Z (Z.shiftr n k) = b).
    { intros k b Hk Hb.
      transitivity (byte_of_Z (Z_of_byte b)); [|apply byte_of_Z_of_byte].
      unfold byte_of_Z. do 3 f_equal.
      apply Z.bits_inj'. intros i Hi. change 256 with (2 ^ 8).
      rewrite !Z.testbit_mod_pow2, Z.shiftr_spec by lia.
      destruct (Z.ltb_spec i 8); [|reflexivity]. simpl.
      apply Hb. lia. }
    rewrite (Hbyte 24 b0), (Hbyte 16 b1), (Hbyte 8 b2); try lia.
    + pose proof (Hbyte 0 b3) as H3. rewrite Z.shiftr_0_r in H3.
      rewrite H3; [reflexivity | lia |].
      intros j Hj. rewrite Z.add_0_r, Hbits by lia.
      destruct (Z.ltb_spec j 8); [reflexivity | lia].
    + intros j Hj. rewrite Hbits by lia.
      destruct (Z.ltb_spec (j + 8) 8), (Z.ltb_spec (j + 8) 16); try lia.
      f_equal. lia.
    + intros j Hj. rewrite Hbits by lia.
      destruct (Z.ltb_spec (j + 16) 8), (Z.ltb_spec (j + 16) 16),
        (Z.ltb_spec (j + 16) 24); try lia.
      f_equal. lia.
    + intros j Hj. rewrite Hbits by lia.
      destruct (Z.ltb_spec (j + 24) 8), (Z.ltb_spec (j + 24) 16),
        (Z.ltb_spec (j + 24) 24), (Z.ltb_spec (j + 24) 32); try lia.
      f_equal. lia.
Qed.

(** ** Transaction keys *)

Lemma hex_digit_inj (n m : N) :
  (n < 16)%N -> (m < 16)%N -> hex_digit n = hex_digit m -> n = m.
Proof.
  intros Hn Hm.
  assert (Hcases : forall k, (k < 16)%N ->
            (k = 0 \/ k = 1 \/ k = 2 \/ k = 3 \/ k = 4 \/ k = 5 \/ k = 6
             \/ k = 7 \/ k = 8 \/ k = 9 \/ k = 10 \/ k = 11 \/ k = 12
             \/ k = 13 \/ k = 14 \/ k = 15)%N) by (intros; lia).
  destruct (Hcases n Hn) as [->|[->|[->|[->|[->|[->|[->|[->|[->|[->|[->|
                             [->|[->|[->|[->| ->]]]]]]]]]]]]]]];
    destruct (Hcases m Hm) as [->|[->|[->|[->|[->|[->|[->|[->|[->|[->|[->|
                               [->|[->|[->|[->| ->]]]]]]]]]]]]]]];
    simpl; intros H; try reflexivity; discriminate H.
Qed.

Lemma sprintf_x_inj (a b : list byte) : sprintf_x a = sprintf_x b -> a = b.
Proof.
  revert b. induction a as [|x a IH]; intros [|y b] H; simpl in H;
    try discriminate; [reflexivity|].
  injection H as Hhi Hlo Hrest.
  pose proof (Byte.to_N_bounded x) as Hx.
  pose proof (Byte.to_N_bounded y) as Hy.
  apply hex_digit_inj in Hhi;
    [|apply N.Div0.div_lt_upper_bound; lia..].
  apply hex_digit_inj in Hlo; [|apply N.mod_lt; lia..].
  assert (Hxy : Byte.to_N x = Byte.to_N y).
  { rewrite (N.div_mod (Byte.to_N x) 16), (N.div_mod (Byte.to_N y) 16) by lia.
    congruence. }
  f_equal; [|apply IH; exact Hrest].
  pose proof (Byte.of_to_N x) as Hox. rewrite Hxy, Byte.of_to_N in Hox.
  congruence.
Qed.

(** ** More on the mempool *)

Section MempoolAccessors.
Import Eff Mempool.

Lemma slice_prefix_ok_hex (txID : list byte) :
  slice_prefix_ok (sprintf_x txID) 8 = bool_decide (4 <= length txID)%nat.
Proof.
  unfold slice_prefix_ok. rewrite sprintf_x_length.
  destruct (Nat.leb_spec 8 (2 * length txID)) as [Hle|Hlt]; symmetry.
  - apply bool_decide_eq_true. lia.
  - apply bool_decide_eq_false. lia.
Qed.

Lemma remove_confirmed_delete (txs : gmap string MempoolTransaction)
    (txID : list byte) :
  remove_confirmed txs txID = delete (sprintf_x txID) txs.
Proof.
  unfold remove_confirmed.
  destruct (txs !! sprintf_x txID) eqn:Hk; [reflexivity|].
  symmetry. apply delete_id. exact Hk.
Qed.

Lemma fold_delete_lookup (keys : list string)
    (txs : gmap string MempoolTransaction) (k : string) :
  fold_left (fun m txID => delete txID m) keys txs !! k
  = if decide (k ∈ keys) then None else txs !! k.
Proof.
  revert txs. induction keys as [|k0 keys IH]; intros txs; simpl.
  - destruct (decide (k ∈ [])) as [Hin|_]; [|reflexivity].
    apply elem_of_nil in Hin. contradiction.
  - rewrite IH.
    destruct (decide (k ∈ keys)) as [Hin|Hnotin].
    + rewrite decide_True by (apply elem_of_cons; auto). reflexivity.
    + destruct (decide (k = k0)) as [->|Hne].
      * rewrite lookup_delete_eq.
        rewrite decide_True by (apply elem_of_cons; auto). reflexivity.
      * rewrite lookup_delete_ne by congruence.
        rewrite decide_False; [reflexivity|].
        intros Hin. apply elem_of_cons in Hin. tauto.
Qed.

Lemma fold_remove_confirmed_lookup (ids : list (list byte))
    (txs : gmap string MempoolTransaction) (k : string) :
  fold_left remove_confirmed ids txs !! k
  = if decide (k ∈ map sprintf_x ids) then None else txs !! k.
Proof.
  rewrite <- fold_delete_lookup. f_equal.
  revert txs. induction ids as [|txID ids IH]; intros txs; simpl.
  - reflexivity.
  - rewrite remove_confirmed_delete. apply IH.
Qed.

(** The configuration of a reachable manager is the one
    [NewMempoolManager] set. *)
Lemma reachable_config (address : string) (mm : MempoolManager) :
  reachable address mm ->
  serverAddress mm = address /\ timeout mm = 24 * hour.
Proof.
  induction 1 as [|mm op Hreach IH Hadm Hret]; [split; reflexivity|].
  pose proof (reachable_invariant address mm Hreach) as Hinv.
  destruct op as [tx now order| | | |].
  1: { destruct (run_op_add tx now order mm) as [-> _].
       destruct (transactions mm !! sprintf_x (GetID tx)) as [e|] eqn:Hlook.
       - rewrite (AddTransaction_duplicate_run _ _ _ _ _ Hlook). exact IH.
       - destruct (AddTransaction_state mm tx now order Hinv Hadm Hlook)
           as (mm1 & -> & _ & [[_ ->] | [_ (k & e & _ & _ & ->)]]);
           exact IH. }
  all: match goal with
       | |- context [run_op ?op ?m] =>
           destruct (run_op_shrinks op m) as (f & -> & _);
           [intros; discriminate | exact IH]
       end.
Qed.



(** A fresh transaction on the pool of a running process: the whole
    outcome of [AddTransaction]. *)
Lemma AddTransaction_fresh_outcome (address : string) (mm : MempoolManager)
    (tx : TransactionInterface) (now : Z)
    (order : list (string * MempoolTransaction)) :
  reachable address mm ->
  transactions mm !! sprintf_x (GetID tx) = None ->
  order ≡ₚ map_to_list (transactions mm) ->
  exists mm1,
    serverAddress mm1 = address
    /\ timeout mm1 = 24 * hour
    /\ AddTransaction tx now order mm
       = {| exit := if bool_decide (4 <= length (GetID tx))%nat
                    then Returned None
                    else Panicked "slice bounds out of range";
            state := set_transactions
                       (insert (sprintf_x (GetID tx)) (new_entry tx now)) mm1;
            events := if bool_decide (4 <= length (GetID tx))%nat
                      then [Protocol.BroadcastMessage Protocol.CmdInv
                              (Protocol.PInv
                                 {| Protocol.iAddrFrom := address;
                                    Protocol.iType := "tx";
                                    Protocol.Items := [GetID tx] |})]
                      else [] |}.
Proof.
  intros Hreach Hfresh Hperm.
  pose proof (reachable_invariant address mm Hreach) as Hinv.
  destruct (reachable_config address mm Hreach) as [Haddr Htimeout].
  destruct (capacity_check_run mm order Hinv Hperm) as (mm1 & Hrun & Hcases).
  exists mm1.
  assert (Haddr1 : serverAddress mm1 = address).
  { destruct Hcases as [[_ ->] | [_ (k & e & _ & _ & ->)]]; exact Haddr. }
  assert (Htimeout1 : timeout mm1 = 24 * hour).
  { destruct Hcases as [[_ ->] | [_ (k & e & _ & _ & ->)]]; exact Htimeout. }
  split; [exact Haddr1|]. split; [exact Htimeout1|].
  rewrite (AddTransaction_fresh_run mm mm1 tx now order Hfresh Hrun).
  rewrite slice_prefix_ok_hex, Haddr1.
  destruct (bool_decide (4 <= length (GetID tx))%nat); reflexivity.
Qed.

End MempoolAccessors.

(** X2.  On the pool of a running process, [AddTransaction] of a
    transaction whose ID is not yet in the pool stores the transaction
    under its ID, stamped with the clock reading, its serialized size
    and a fee of ten units a byte, so that [GetTransaction] finds it.
    For an ID of four bytes or more the call returns nil after exactly
    one broadcast, an inventory of type "tx" with that one ID from the
    server's address; for a shorter ID it panics on the log line
    [txID[:8]], after the entry is stored and before any broadcast. *)
Theorem AddTransaction_admits (address : string)
    (mm : Mempool.MempoolManager) (tx : TransactionInterface) (now : Z)
    (order : list (string * Mempool.MempoolTransaction)) :
  Mempool.reachable address mm ->
  Mempool.transactions mm !! sprintf_x (GetID tx) = None ->
  order ≡ₚ map_to_list (Mempool.transactions mm) ->
  Mempool.transactions
    (Eff.state (Mempool.AddTransaction tx now order mm))
    !! sprintf_x (GetID tx)
  = Some {| Mempool.Transaction := tx;
            Mempool.Timestamp := now;
            Mempool.Fees := 10 * len (Serialize tx);
            Mempool.Size := len (Serialize tx);
            Mempool.Verified := true |}
  /\ Mempool.GetTransaction
       (Eff.state (Mempool.AddTransaction tx now order mm)) (GetID tx)
     = Some tx
  /\ ((4 <= length (GetID tx))%nat ->
      Eff.exit (Mempool.AddTransaction tx now order mm) = Returned None
      /\ Eff.events (Mempool.AddTransaction tx now order mm)
         = [Protocol.BroadcastMessage Protocol.CmdInv
              (Protocol.PInv
                 {| Protocol.iAddrFrom := address;
                    Protocol.iType := "tx";
                    Protocol.Items := [GetID tx] |})])
  /\ ((length (GetID tx) < 4)%nat ->
      Eff.exit (Mempool.AddTransaction tx now order mm)
      = Panicked "slice bounds out of range"
      /\ Eff.events (Mempool.AddTransaction tx now order mm) = []).
Proof.
  intros Hreach Hfresh Hperm.
  destruct (AddTransaction_fresh_outcome address mm tx now order
              Hreach Hfresh Hperm) as (mm1 & _ & _ & Hrun).
  rewrite Hrun.
  cbn [Eff.state Eff.exit Eff.events]. unfold Mempool.GetTransaction.
  cbn [Mempool.transactions Mempool.set_transactions].
  rewrite lookup_insert_eq.
  split; [|split; [reflexivity|split]].
  - unfold Mempool.new_entry, Mempool.calculateFees. do 2 f_equal. lia.
  - intros Hlen. rewrite bool_decide_eq_true_2 by exact Hlen.
    split; reflexivity.
  - intros Hlen. rewrite bool_decide_eq_false_2 by lia.
    split; reflexivity.
Qed.

Lemma AddTransaction_admits_witness :
  let mm := Mempool.filled "localhost:3000" 2 in
  let tx := {| GetID := [xde; xad; xbe; xef]; Serialize := [x01; x02; x03] |} in
  let r := Mempool.AddTransaction tx 99
             (map_to_list (Mempool.transactions mm)) mm in
  Mempool.GetTransaction (Eff.state r) [xde; xad; xbe; xef] = Some tx
  /\ Eff.exit r = Returned None
  /\ Eff.events r
     = [Protocol.BroadcastMessage "inv"
          (Protocol.PInv
             {| Protocol.iAddrFrom := "localhost:3000";
                Protocol.iType := "tx";
                Protocol.Items := [[xde; xad; xbe; xef]] |})].
Proof.
  intros mm tx r.
  destruct (AddTransaction_admits "localhost:3000" mm tx 99
              (map_to_list (Mempool.transactions mm)))
    as (_ & Hget & Hlong & _).
  - apply (filled_reachable "localhost:3000" 2). lia.
  - vm_compute. reflexivity.
  - reflexivity.
  - split; [exact Hget|]. apply Hlong. simpl. lia.
Defined.

(** X3.  [ValidateTransaction] accepts exactly the transactions with a
    non-empty ID and a non-empty serialization; acceptance does not
    make [AddTransaction] safe: an accepted transaction whose ID has
    fewer than four bytes still makes [AddTransaction] panic on a
    running pool that does not hold it. *)
Theorem ValidateTransaction_accepts (address : string)
    (mm : Mempool.MempoolManager) (tx : TransactionInterface) (now : Z)
    (order : list (string * Mempool.MempoolTransaction)) :
  Mempool.reachable address mm ->
  Mempool.transactions mm !! sprintf_x (GetID tx) = None ->
  order ≡ₚ map_to_list (Mempool.transactions mm) ->
  (Mempool.ValidateTransaction tx = None
   <-> GetID tx <> [] /\ Serialize tx <> [])
  /\ (Mempool.ValidateTransaction tx = None ->
      (length (GetID tx) < 4)%nat ->
      Eff.exit (Mempool.AddTransaction tx now order mm)
      = Panicked "slice bounds out of range").
Proof.
  intros Hreach Hfresh Hperm. split.
  - unfold Mempool.ValidateTransaction, len.
    destruct (GetID tx) as [|b id], (Serialize tx) as [|c ser]; simpl;
      split; try discriminate; try tauto; try (intros [? ?]; congruence).
    intros _. split; discriminate.
  - intros _ Hshort.
    destruct (AddTransaction_fresh_outcome address mm tx now order
                Hreach Hfresh Hperm) as (mm1 & _ & _ & Hrun).
    rewrite Hrun. cbn [Eff.exit].
    rewrite bool_decide_eq_false_2 by lia. reflexivity.
Qed.

Lemma ValidateTransaction_accepts_witness :
  let mm := Mempool.filled "localhost:3000" 1 in
  let tx := {| GetID := [x2a]; Serialize := [x01] |} in
  Mempool.ValidateTransaction tx = None
  /\ Eff.exit (Mempool.AddTransaction tx 5
                 (map_to_list (Mempool.transactions mm)) mm)
     = Panicked "slice bounds out of range".
Proof.
  intros mm tx.
  destruct (ValidateTransaction_accepts "localhost:3000" mm tx 5
              (map_to_list (Mempool.transactions mm)))
    as [Hiff Hpanic].
  - apply (filled_reachable "localhost:3000" 1). lia.
  - vm_compute. reflexivity.
  - reflexivity.
  - split; [reflexivity|]. apply Hpanic; [reflexivity | simpl; lia].
Defined.

Section MempoolRemovals.
Import Eff Mempool.

Lemma GetTransaction_delete_other (txs : gmap string MempoolTransaction)
    (mm : MempoolManager) (txID other : list byte) :
  other <> txID ->
  GetTransaction (set_transactions (delete (sprintf_x txID)) mm) other
  = GetTransaction mm other.
Proof.
  intros Hne. unfold GetTransaction. simpl.
  rewrite lookup_delete_ne; [reflexivity|].
  intros Heq. apply sprintf_x_inj in Heq. congruence.
Qed.

Lemma elem_of_hex_keys (txID : list byte) (ids : list (list byte)) :
  sprintf_x txID ∈ map sprintf_x ids <-> txID ∈ ids.
Proof.
  split.
  - intros Hin. apply list_elem_of_fmap in Hin.
    destruct Hin as (y & Heq & Hy). apply sprintf_x_inj in Heq.
    subst. exact Hy.
  - intros Hin. apply list_elem_of_fmap. eauto.
Qed.


Lemma by_fees_fold (limit : Z) (txs : list MempoolTransaction)
    (result : list TransactionInterface) (count : Z) :
  0 <= count ->
  fold_left (by_fees_step limit) txs (result, count)
  = (result ++ map Transaction (take (Z.to_nat (limit - count)) txs),
     Z.min (Z.max limit count) (count + len txs)).
Proof.
  revert result count. induction txs as [|e txs IH]; intros result count Hc.
  - simpl. rewrite take_nil, app_nil_r. f_equal. unfold len. simpl. lia.
  - cbn [fold_left].
    assert (Hstep : by_fees_step limit (result, count) e
                    = if count >=? limit then (result, count)
                      else (result ++ [Transaction e], count + 1))
      by reflexivity.
    rewrite Hstep. clear Hstep.
    destruct (Z.geb_spec count limit) as [Hfull|Hroom].
    + rewrite IH by lia.
      replace (Z.to_nat (limit - count)) with 0%nat by lia.
      simpl. f_equal. unfold len. simpl. lia.
    + rewrite IH by lia.
      replace (Z.to_nat (limit - count))
        with (S (Z.to_nat (limit - (count + 1)))) by lia.
      simpl. rewrite <- app_assoc. f_equal. unfold len. simpl. lia.
Qed.

(** What a cleanup pass leaves under each key. *)
Lemma CleanExpiredTransactions_lookup (mm : MempoolManager) (now : Z)
    (k : string) :
  transactions (state (CleanExpiredTransactions now mm)) !! k
  = match transactions mm !! k with
    | Some e => if now - Timestamp e >? timeout mm then None else Some e
    | None => None
    end.
Proof.
  unfold CleanExpiredTransactions. rewrite bind_get.
  simpl. rewrite fold_delete_lookup.
  set (keys := map fst _).
  destruct (transactions mm !! k) as [e|] eqn:Hk.
  - destruct (Z.gtb_spec (now - Timestamp e) (timeout mm))
      as [Hold|Hyoung].
    + rewrite decide_True; [reflexivity|].
      apply list_elem_of_fmap. exists (k, e). split; [reflexivity|].
      apply list_elem_of_In, filter_In. split.
      * apply list_elem_of_In, elem_of_map_to_list. exact Hk.
      * unfold expired. simpl. apply Z.gtb_lt. lia.
    + rewrite decide_False; [reflexivity|].
      intros Hin. apply list_elem_of_fmap in Hin.
      destruct Hin as ([k' e'] & Hfst & Hin). simpl in Hfst. subst k'.
      apply list_elem_of_In, filter_In in Hin. destruct Hin as [Hin Hexp].
      apply list_elem_of_In, elem_of_map_to_list in Hin.
      rewrite Hk in Hin. inversion Hin. subst e'.
      unfold expired in Hexp. simpl in Hexp.
      apply Z.gtb_lt in Hexp. lia.
  - destruct (decide (k ∈ keys)); reflexivity.
Qed.

End MempoolRemovals.

(** X4.  [RemoveTransaction] deletes the entry with the given ID (the
    pool no longer has it), leaves the transaction held under every
    other ID as it was and sends nothing.  It returns for an ID of four
    bytes or more; for a shorter ID it panics on the log line
    [txIDStr[:8]], after the deletion. *)
Theorem RemoveTransaction_effect (mm : Mempool.MempoolManager)
    (txID : list byte) :
  Mempool.HasTransaction (Eff.state (Mempool.RemoveTransaction txID mm)) txID
  = false
  /\ (forall other, other <> txID ->
        Mempool.GetTransaction
          (Eff.state (Mempool.RemoveTransaction txID mm)) other
        = Mempool.GetTransaction mm other)
  /\ Eff.events (Mempool.RemoveTransaction txID mm) = []
  /\ Eff.exit (Mempool.RemoveTransaction txID mm)
     = if bool_decide (4 <= length txID)%nat then Returned tt
       else Panicked "slice bounds out of range".
Proof.
  unfold Mempool.RemoveTransaction.
  rewrite bind_modify. unfold Eff.slice_prefix.
  rewrite slice_prefix_ok_hex.
  assert (Hstate :
            Eff.state
              ((if bool_decide (4 <= length txID)%nat
                then Eff.ret tt
                else Eff.panic "slice bounds out of range")
                 (Mempool.set_transactions (delete (sprintf_x txID)) mm))
            = Mempool.set_transactions (delete (sprintf_x txID)) mm)
    by (destruct (bool_decide (4 <= length txID)%nat); reflexivity).
  rewrite Hstate. split; [|split; [|split]].
  - unfold Mempool.HasTransaction. simpl. rewrite lookup_delete_eq.
    apply bool_decide_eq_false. intros [x Hx]. discriminate.
  - intros other Hne.
    apply (GetTransaction_delete_other (Mempool.transactions mm)). exact Hne.
  - destruct (bool_decide (4 <= length txID)%nat); reflexivity.
  - destruct (bool_decide (4 <= length txID)%nat); reflexivity.
Qed.

(** X5.  [RemoveConfirmedTransactions] returns without sending
    anything, and afterwards the pool holds under an ID what it held
    before, except that the supplied IDs are gone; IDs that were not in
    the pool, repeated IDs and IDs of any length are accepted
    silently. *)
Theorem RemoveConfirmedTransactions_effect (mm : Mempool.MempoolManager)
    (confirmedTxs : list (list byte)) :
  Eff.exit (Mempool.RemoveConfirmedTransactions confirmedTxs mm)
  = Returned tt
  /\ Eff.events (Mempool.RemoveConfirmedTransactions confirmedTxs mm) = []
  /\ forall txID,
       Mempool.GetTransaction
         (Eff.state (Mempool.RemoveConfirmedTransactions confirmedTxs mm))
         txID
       = if decide (txID ∈ confirmedTxs) then None
         else Mempool.GetTransaction mm txID.
Proof.
  split; [reflexivity|]. split; [reflexivity|].
  intros txID. unfold Mempool.GetTransaction. simpl.
  rewrite fold_remove_confirmed_lookup.
  destruct (decide (txID ∈ confirmedTxs)) as [Hin|Hnotin].
  - rewrite decide_True by (apply elem_of_hex_keys; exact Hin). reflexivity.
  - rewrite decide_False; [reflexivity|].
    intros Hin. apply elem_of_hex_keys in Hin. contradiction.
Qed.

(** X6.  [CleanExpiredTransactions] at time [now] returns without
    sending anything and keeps exactly the entries whose age
    [now - Timestamp] does not exceed the pool's timeout; an entry whose
    age equals the timeout stays. *)
Theorem CleanExpiredTransactions_effect (mm : Mempool.MempoolManager)
    (now : Z) :
  Eff.exit (Mempool.CleanExpiredTransactions now mm) = Returned tt
  /\ Eff.events (Mempool.CleanExpiredTransactions now mm) = []
  /\ forall k,
       Mempool.transactions
         (Eff.state (Mempool.CleanExpiredTransactions now mm)) !! k
       = match Mempool.transactions mm !! k with
         | Some e =>
             if now - Mempool.Timestamp e >? Mempool.timeout mm then None
             else Some e
         | None => None
         end.
Proof.
  split; [|split].
  - unfold Mempool.CleanExpiredTransactions. rewrite bind_get. reflexivity.
  - unfold Mempool.CleanExpiredTransactions. rewrite bind_get. reflexivity.
  - intros k. apply CleanExpiredTransactions_lookup.
Qed.

(** X7.  A transaction admitted at time [admitted] to the pool of a
    running process is still in the pool after a cleanup pass at time
    [now] exactly when [now - admitted] is at most the pool's timeout of
    24 hours. *)
Theorem admitted_transaction_expires (address : string)
    (mm : Mempool.MempoolManager) (tx : TransactionInterface)
    (admitted now : Z)
    (order : list (string * Mempool.MempoolTransaction)) :
  Mempool.reachable address mm ->
  Mempool.transactions mm !! sprintf_x (GetID tx) = None ->
  order ≡ₚ map_to_list (Mempool.transactions mm) ->
  Mempool.HasTransaction
    (Eff.state
       (Mempool.CleanExpiredTransactions now
          (Eff.state (Mempool.AddTransaction tx admitted order mm))))
    (GetID tx)
  = bool_decide (now - admitted <= 24 * hour).
Proof.
  intros Hreach Hfresh Hperm.
  destruct (AddTransaction_fresh_outcome address mm tx admitted order
              Hreach Hfresh Hperm) as (mm1 & _ & Htimeout & Hrun).
  rewrite Hrun. cbn [Eff.state].
  unfold Mempool.HasTransaction.
  rewrite CleanExpiredTransactions_lookup.
  cbn [Mempool.transactions Mempool.set_transactions Mempool.timeout].
  rewrite lookup_insert_eq, Htimeout.
  cbn [Mempool.new_entry Mempool.Timestamp].
  destruct (Z.gtb_spec (now - admitted) (24 * hour)) as [Hold|Hyoung].
  - rewrite bool_decide_eq_false_2 by (intros [x Hx]; discriminate).
    symmetry. apply bool_decide_eq_false. lia.
  - rewrite bool_decide_eq_true_2 by eauto.
    symmetry. apply bool_decide_eq_true. lia.
Qed.

Lemma admitted_transaction_expires_witness :
  let mm := Mempool.filled "localhost:3000" 2 in
  let tx := {| GetID := [xde; xad; xbe; xef]; Serialize := [x01] |} in
  let order := map_to_list (Mempool.transactions mm) in
  Mempool.HasTransaction
    (Eff.state
       (Mempool.CleanExpiredTransactions (100 + 24 * hour)
          (Eff.state (Mempool.AddTransaction tx 100 order mm))))
    [xde; xad; xbe; xef] = true
  /\ Mempool.HasTransaction
       (Eff.state
          (Mempool.CleanExpiredTransactions (101 + 24 * hour)
             (Eff.state (Mempool.AddTransaction tx 100 order mm))))
       [xde; xad; xbe; xef] = false.
Proof.
  intros mm tx order.
  assert (Hreach : Mempool.reachable "localhost:3000" mm)
    by (apply (filled_reachable "localhost:3000" 2); lia).
  assert (Hfresh : Mempool.transactions mm !! sprintf_x (GetID tx) = None)
    by (vm_compute; reflexivity).
  change [xde; xad; xbe; xef] with (GetID tx).
  split.
  - rewrite (admitted_transaction_expires "localhost:3000" mm tx 100
               (100 + 24 * hour) order Hreach Hfresh (reflexivity _)).
    reflexivity.
  - rewrite (admitted_transaction_expires "localhost:3000" mm tx 100
               (101 + 24 * hour) order Hreach Hfresh (reflexivity _)).
    reflexivity.
Defined.



(** X9.  [GetTransactionsByFees] with a negative limit panics in
    [make]; with a limit between 0 and the largest capacity the runtime
    allocates it returns the transactions of the first [limit] entries
    in the order the runtime ranges over the pool, so the lesser of
    [limit] and the pool size many, every one of them a transaction of
    the pool.  No ordering by fee takes place. *)
Theorem GetTransactionsByFees_returns (mm : Mempool.MempoolManager)
    (maxCap limit : Z) (order : list (string * Mempool.MempoolTransaction)) :
  order ≡ₚ map_to_list (Mempool.transactions mm) ->
  (limit < 0 ->
   Mempool.GetTransactionsByFees maxCap limit order
   = Panicked "makeslice: cap out of range")
  /\ (0 <= limit <= maxCap ->
      exists result,
        Mempool.GetTransactionsByFees maxCap limit order = Returned result
        /\ result
           = map (fun entry => Mempool.Transaction (snd entry))
               (take (Z.to_nat limit) order)
        /\ len result = Z.min limit (Z.of_nat (size (Mempool.transactions mm)))
        /\ forall tx, tx ∈ result ->
             exists k e, Mempool.transactions mm !! k = Some e
                         /\ Mempool.Transaction e = tx).
Proof.
  intros Hperm. unfold Mempool.GetTransactionsByFees. split.
  - intros Hneg. destruct (Z.ltb_spec limit 0); [reflexivity | lia].
  - intros Hlimit.
    destruct (Z.ltb_spec limit 0); [lia|].
    destruct (Z.ltb_spec maxCap limit); [lia|]. simpl.
    eexists. split; [reflexivity|].
    rewrite by_fees_fold by lia. cbn [fst app].
    rewrite Z.sub_0_r.
    assert (Heq : map Mempool.Transaction
                    (take (Z.to_nat limit) (map snd order))
                  = map (fun entry => Mempool.Transaction (snd entry))
                      (take (Z.to_nat limit) order)).
    { rewrite firstn_map, map_map. reflexivity. }
    rewrite Heq. split; [reflexivity|]. split.
    + unfold len. rewrite length_map, length_take.
      rewrite Hperm, length_map_to_list. lia.
    + intros tx Htx. apply list_elem_of_fmap in Htx.
      destruct Htx as ([k e] & -> & Hin).
      apply elem_of_take in Hin.
      destruct Hin as (i & Hi & _).
      apply list_elem_of_lookup_2 in Hi. rewrite Hperm in Hi.
      apply elem_of_map_to_list in Hi. exists k, e. auto.
Qed.

Lemma GetTransactionsByFees_returns_witness :
  let mm := Mempool.filled "localhost:3000" 3 in
  let order := map_to_list (Mempool.transactions mm) in
  Mempool.GetTransactionsByFees 1000000 (-1) order
  = Panicked "makeslice: cap out of range"
  /\ exists result,
       Mempool.GetTransactionsByFees 1000000 2 order = Returned result
       /\ len result = 2.
Proof.
  intros mm order.
  destruct (GetTransactionsByFees_returns mm 1000000 (-1) order
              (reflexivity _)) as [Hneg _].
  destruct (GetTransactionsByFees_returns mm 1000000 2 order
              (reflexivity _)) as [_ Hpos].
  split; [apply Hneg; lia|].
  destruct Hpos as (result & Hrun & _ & Hlen & _); [lia|].
  exists result. split; [exact Hrun|]. rewrite Hlen.
  vm_compute. reflexivity.
Defined.

(** X10.  On the pool of a running process, [GetTransaction] for an ID
    returns a transaction with that very ID or nothing, and
    [HasTransaction] is true exactly when [GetTransaction] returns a
    transaction. *)
Theorem GetTransaction_returns_requested (address : string)
    (mm : Mempool.MempoolManager) (txID : list byte) :
  Mempool.reachable address mm ->
  (forall tx, Mempool.GetTransaction mm txID = Some tx -> GetID tx = txID)
  /\ (Mempool.HasTransaction mm txID = true
      <-> exists tx, Mempool.GetTransaction mm txID = Some tx).
Proof.
  intros Hreach.
  destruct (reachable_invariant address mm Hreach) as (_ & _ & Hwk).
  unfold Mempool.GetTransaction, Mempool.HasTransaction. split.
  - intros tx Hget.
    destruct (Mempool.transactions mm !! sprintf_x txID) as [e|] eqn:Hk;
      [|discriminate].
    inversion Hget. subst tx. destruct (Hwk _ _ Hk) as [Hkey _].
    apply sprintf_x_inj in Hkey. congruence.
  - rewrite bool_decide_eq_true.
    destruct (Mempool.transactions mm !! sprintf_x txID) as [e|].
    + split; eauto.
    + split; [intros [x Hx]; discriminate | intros [tx Htx]; discriminate].
Qed.

Lemma GetTransaction_returns_requested_witness :
  let mm := Mempool.filled "localhost:3000" 2 in
  Mempool.GetTransaction mm [x00; x00; x00; x00] = Some (Mempool.sample_tx 0)
  /\ Mempool.HasTransaction mm [x00; x00; x00; x00] = true.
Proof.
  intros mm.
  destruct (GetTransaction_returns_requested "localhost:3000" mm
              [x00; x00; x00; x00]) as [_ Hhas].
  - apply (filled_reachable "localhost:3000" 2). lia.
  - assert (Hget : Mempool.GetTransaction mm [x00; x00; x00; x00]
                   = Some (Mempool.sample_tx 0)) by (vm_compute; reflexivity).
    split; [exact Hget|]. apply Hhas. eauto.
Defined.

(** ** More on the peer table *)

Section Connecting.
Import Eff Node.

(** [ConnectToPeer] in full: a guard error leaves everything as it
    was; otherwise one dial is made and the entry under the address is
    replaced according to its result. *)
Lemma ConnectToPeer_run (nm : NodeManager) (address : string)
    (now1 now2 : Z) (dial : option error) :
  ConnectToPeer address now1 dial now2 nm
  = match connect_guard nm address with
    | Some err => {| exit := Returned (Some err); state := nm; events := [] |}
    | None =>
        {| exit := Returned (match dial with
                             | Some _ => Some (ErrConnectFailed address)
                             | None => None
                             end);
           state :=
             set_peers
               (insert address
                  (match dial with
                   | Some _ =>
                       new_peer address now1 PeerStatusDisconnected false
                   | None => new_peer address now2 PeerStatusConnected true
                   end)) nm;
           events := [Protocol.ServerConnectToPeer address] |}
    end.
Proof.
  unfold ConnectToPeer, connect_guard. rewrite bind_get.
  destruct (String.eqb address (serverAddress nm)); [reflexivity|].
  destruct (match peers nm !! address with
            | Some peer => Connected peer
            | None => false
            end); [reflexivity|].
  destruct (getConnectedPeerCount nm >=? maxPeers nm); [reflexivity|].
  rewrite bind_modify, bind_emit.
  destruct dial as [err|]; rewrite bind_modify; cbn [ret exit state events];
    unfold set_peers; cbn [peers serverAddress bootstrapNodes maxPeers running];
    rewrite insert_insert_eq; reflexivity.
Qed.

Lemma connect_guard_None (nm : NodeManager) (address : string) :
  connect_guard nm address = None ->
  address <> serverAddress nm
  /\ connected_at nm address = false
  /\ getConnectedPeerCount nm < maxPeers nm.
Proof.
  unfold connect_guard, connected_at, is_connected.
  destruct (String.eqb_spec address (serverAddress nm)); [discriminate|].
  destruct (peers nm !! address) as [peer|].
  - destruct (Connected peer); [discriminate|].
    destruct (Z.geb_spec (getConnectedPeerCount nm) (maxPeers nm));
      [discriminate|]. auto.
  - destruct (Z.geb_spec (getConnectedPeerCount nm) (maxPeers nm));
      [discriminate|]. auto.
Qed.

Lemma connected_at_insert (nm : NodeManager) (address a : string)
    (peer : Peer) :
  connected_at (set_peers (insert address peer) nm) a
  = if decide (a = address) then is_connected peer else connected_at nm a.
Proof.
  unfold connected_at. simpl.
  destruct (decide (a = address)) as [->|Hne].
  - rewrite lookup_insert_eq. reflexivity.
  - rewrite lookup_insert_ne by congruence. reflexivity.
Qed.

End Connecting.

(** X11.  [ConnectToPeer] returns nil exactly when none of its guards
    fires (the address is not the node's own, its entry is not marked
    connected, fewer than [maxPeers] peers are connected) and the dial
    succeeds.  Then it has dialled once, and the peers that count as
    connected are those that did before plus the address.  When it
    returns an error, the peers that count as connected are the same
    as before, and it has dialled at most once, never its own
    address. *)
Theorem ConnectToPeer_outcome (nm : Node.NodeManager) (address : string)
    (now1 now2 : Z) (dial : option error) :
  let r := Node.ConnectToPeer address now1 dial now2 nm in
  (Eff.exit r = Returned None
   <-> Node.connect_guard nm address = None /\ dial = None)
  /\ (Eff.exit r = Returned None ->
      Eff.events r = [Protocol.ServerConnectToPeer address]
      /\ forall a, Node.connected_at (Eff.state r) a
                   = if decide (a = address) then true
                     else Node.connected_at nm a)
  /\ (Eff.exit r <> Returned None ->
      (Eff.events r = []
       \/ Eff.events r = [Protocol.ServerConnectToPeer address]
          /\ address <> Node.serverAddress nm)
      /\ forall a, Node.connected_at (Eff.state r) a
                   = Node.connected_at nm a).
Proof.
  intros r. unfold r. rewrite ConnectToPeer_run.
  destruct (Node.connect_guard nm address) as [err|] eqn:Hguard.
  - cbn [Eff.exit Eff.state Eff.events]. split; [|split].
    + split; [discriminate | intros [? _]; discriminate].
    + discriminate.
    + intros _. split; [left; reflexivity | reflexivity].
  - destruct (connect_guard_None nm address Hguard) as (Hself & Hconn & _).
    destruct dial as [err|]; cbn [Eff.exit Eff.state Eff.events].
    + split; [|split].
      * split; [discriminate | intros [_ ?]; discriminate].
      * discriminate.
      * intros _. split; [right; auto|].
        intros a. rewrite connected_at_insert.
        destruct (decide (a = address)) as [->|]; [|reflexivity].
        rewrite Hconn. reflexivity.
    + split; [|split].
      * split; auto.
      * intros _. split; [reflexivity|].
        intros a. rewrite connected_at_insert. reflexivity.
      * intros Hne. contradiction Hne. reflexivity.
Qed.

Section Bootstrapping.
Import Eff Node.

Lemma same_config_refl (nm : NodeManager) : same_config nm nm.
Proof. repeat split. Qed.

Lemma same_config_trans (nm1 nm2 nm3 : NodeManager) :
  same_config nm1 nm2 -> same_config nm2 nm3 -> same_config nm1 nm3.
Proof.
  intros (Ha & Hb & Hm & Hr) (Ha' & Hb' & Hm' & Hr').
  repeat split; congruence.
Qed.

Lemma keeps_connections_refl (nm : NodeManager) : keeps_connections nm nm.
Proof. split; auto. Qed.

Lemma keeps_connections_trans (nm1 nm2 nm3 : NodeManager) :
  keeps_connections nm1 nm2 -> keeps_connections nm2 nm3 ->
  keeps_connections nm1 nm3.
Proof. intros [Hc Hb] [Hc' Hb']. split; auto. Qed.

(** One [ConnectToPeer] call, as the loops see it. *)
Lemma ConnectToPeer_step (nm : NodeManager) (address : string)
    (now1 now2 : Z) (dial : option error) :
  exists err nm' evs,
    ConnectToPeer address now1 dial now2 nm
    = {| exit := Returned err; state := nm'; events := evs |}
    /\ same_config nm nm'
    /\ keeps_connections nm nm'
    /\ (evs = [] \/ evs = [Protocol.ServerConnectToPeer address]
                    /\ address <> serverAddress nm)
    /\ match err with
       | None =>
           address <> serverAddress nm
           /\ forall a, connected_at nm' a
                        = if decide (a = address) then true
                          else connected_at nm a
       | Some _ => forall a, connected_at nm' a = connected_at nm a
       end.
Proof.
  pose proof (ConnectToPeer_within_maxPeers nm address now1 now2 dial)
    as Hbound.
  rewrite ConnectToPeer_run in *.
  destruct (connect_guard nm address) as [err|] eqn:Hguard.
  - exists (Some err), nm, []. split; [reflexivity|].
    split; [apply same_config_refl|]. split; [apply keeps_connections_refl|].
    split; [left; reflexivity|]. reflexivity.
  - destruct (connect_guard_None nm address Hguard) as (Hself & Hconn & _).
    cbn [state] in Hbound.
    destruct dial as [err|]; eexists _, _, _; (split; [reflexivity|]);
      (split; [repeat split|]).
    + split; [split; [|exact Hbound]|].
      * intros a Ha. rewrite connected_at_insert.
        destruct (decide (a = address)) as [->|]; [congruence | exact Ha].
      * split; [right; auto|]. intros a. rewrite connected_at_insert.
        destruct (decide (a = address)) as [->|]; [|reflexivity].
        rewrite Hconn. reflexivity.
    + split; [split; [|exact Hbound]|].
      * intros a Ha. rewrite connected_at_insert.
        destruct (decide (a = address)); [reflexivity | exact Ha].
      * split; [right; auto|]. split; [exact Hself|].
        intros a. rewrite connected_at_insert. reflexivity.
Qed.

End Bootstrapping.

Section BootstrapLoop.
Import Eff Node.

Lemma dials_only_nil (nodes : list string) (self : string) :
  dials_only nodes self [].
Proof. intros e He. apply elem_of_nil in He. contradiction. Qed.

Lemma dials_only_app (nodes : list string) (self : string)
    (evs evs' : list Protocol.Event) :
  dials_only nodes self evs -> dials_only nodes self evs' ->
  dials_only nodes self (evs ++ evs').
Proof.
  intros H H' e He. apply elem_of_app in He. destruct He; auto.
Qed.

Lemma dials_only_cons (node : string) (nodes : list string) (self : string)
    (evs : list Protocol.Event) :
  dials_only nodes self evs -> dials_only (node :: nodes) self evs.
Proof.
  intros H e He. destruct (H e He) as (n & -> & Hn & Hne).
  exists n. split; [reflexivity|]. split; [|exact Hne].
  apply list_elem_of_further. exact Hn.
Qed.

Lemma dials_only_step (node : string) (nodes : list string) (self : string)
    (evs : list Protocol.Event) :
  evs = [] \/ evs = [Protocol.ServerConnectToPeer node] /\ node <> self ->
  dials_only (node :: nodes) self evs.
Proof.
  intros [-> | [-> Hne]]; [apply dials_only_nil|].
  intros e He. apply list_elem_of_singleton in He. subst e.
  exists node. split; [reflexivity|]. split; [apply list_elem_of_here|].
  exact Hne.
Qed.

(** The loop of [Bootstrap]: it returns a count no less than the one it
    started with, and at most two when started with zero; no connected
    peer is lost; with the count
    unchanged nobody new is connected, and with a greater count one of
    the nodes, other than the node itself, is. *)
Lemma bootstrap_loop_spec (env : Environment) (nodes : list string) :
  forall (i : nat) (connectedCount : Z) (nm : NodeManager),
  exists count nm' evs,
    bootstrap_loop env i nodes connectedCount nm
    = {| exit := Returned count; state := nm'; events := evs |}
    /\ connectedCount <= count <= Z.max (connectedCount + 1) 2
    /\ same_config nm nm'
    /\ keeps_connections nm nm'
    /\ dials_only nodes (serverAddress nm) evs
    /\ (count = connectedCount ->
        forall a, connected_at nm' a = connected_at nm a)
    /\ (connectedCount < count ->
        exists node, node ∈ nodes /\ node <> serverAddress nm
                     /\ connected_at nm' node = true).
Proof.
  induction nodes as [|node rest IH]; intros i c nm.
  - exists c, nm, []. split; [reflexivity|]. split; [lia|].
    split; [apply same_config_refl|]. split; [apply keeps_connections_refl|].
    split; [apply dials_only_nil|]. split; [reflexivity | lia].
  - cbn [bootstrap_loop]. rewrite bind_get.
    destruct (String.eqb_spec node (serverAddress nm)) as [Hself|Hother].
    + destruct (IH (S i) c nm)
        as (c' & nm' & evs & -> & Hc & Hcfg & Hkeep & Hev & Hsame & Hmore).
      exists c', nm', evs. split; [reflexivity|]. split; [exact Hc|].
      split; [exact Hcfg|]. split; [exact Hkeep|].
      split; [apply dials_only_cons, Hev|]. split; [exact Hsame|].
      intros Hlt. destruct (Hmore Hlt) as (n & Hn & Hne & Hconn).
      exists n. split; [apply list_elem_of_further, Hn | auto].
    + destruct (env i) as [[now1 dial] now2].
      destruct (ConnectToPeer_step nm node now1 now2 dial)
        as (err & nm1 & ev1 & Hrun & Hcfg1 & Hkeep1 & Hev1 & Herr).
      rewrite (bind_returned _ _ _ _ _ _ Hrun).
      assert (Haddr1 : serverAddress nm1 = serverAddress nm) by apply Hcfg1.
      destruct err as [e|].
      * destruct (IH (S i) c nm1)
          as (c' & nm' & evs & -> & Hc & Hcfg & Hkeep & Hev & Hsame & Hmore).
        cbn [exit state events].
        exists c', nm', (ev1 ++ evs). split; [reflexivity|].
        split; [exact Hc|].
        split; [eapply same_config_trans; eassumption|].
        split; [eapply keeps_connections_trans; eassumption|].
        split.
        { apply dials_only_app; [apply dials_only_step, Hev1|].
          apply dials_only_cons. rewrite <- Haddr1. exact Hev. }
        split.
        { intros Heq a. rewrite (Hsame Heq a). apply Herr. }
        intros Hlt. destruct (Hmore Hlt) as (n & Hn & Hne & Hconn).
        exists n. split; [apply list_elem_of_further, Hn|].
        split; [congruence | exact Hconn].
      * destruct Herr as [Hne Hconn1].
        destruct (Z.geb_spec (c + 1) 2) as [Hdone|Hgo].
        -- cbn [ret exit state events]. rewrite app_nil_r.
           exists (c + 1), nm1, ev1. split; [reflexivity|]. split; [lia|].
           split; [exact Hcfg1|]. split; [exact Hkeep1|].
           split; [apply dials_only_step, Hev1|]. split; [lia|].
           intros _. exists node. split; [apply list_elem_of_here|].
           split; [exact Hne|]. rewrite Hconn1.
           rewrite decide_True by reflexivity. reflexivity.
        -- destruct (IH (S i) (c + 1) nm1)
             as (c' & nm' & evs & -> & Hc & Hcfg & Hkeep & Hev & Hsame
                 & Hmore).
           cbn [exit state events].
           exists c', nm', (ev1 ++ evs). split; [reflexivity|].
           split; [lia|].
           split; [eapply same_config_trans; eassumption|].
           split; [eapply keeps_connections_trans; eassumption|].
           split.
           { apply dials_only_app; [apply dials_only_step, Hev1|].
             apply dials_only_cons. rewrite <- Haddr1. exact Hev. }
           split; [lia|].
           intros _. exists node. split; [apply list_elem_of_here|].
           split; [exact Hne|]. apply Hkeep. rewrite Hconn1.
           rewrite decide_True by reflexivity. reflexivity.
Qed.

End BootstrapLoop.

(** X12.  [Bootstrap] never panics.  With an empty list of bootstrap
    nodes it fails at once and does nothing.  When it returns nil, one
    of the bootstrap nodes other than the node itself counts as
    connected afterwards; when it fails for lack of a connection, the
    peers that count as connected are the same as before.  In every
    case it dials bootstrap nodes only and never its own address, no
    peer that counted as connected stops to, the configuration is
    unchanged, and a connected count within [maxPeers] stays within
    it. *)
Theorem Bootstrap_outcome (env : Node.Environment) (nm : Node.NodeManager) :
  let r := Node.Bootstrap env nm in
  (Node.bootstrapNodes nm = [] ->
   r = {| Eff.exit := Returned (Some Node.ErrNoBootstrapNodes);
          Eff.state := nm; Eff.events := [] |})
  /\ (exists result, Eff.exit r = Returned result)
  /\ (Eff.exit r = Returned None ->
      exists node, node ∈ Node.bootstrapNodes nm
                   /\ node <> Node.serverAddress nm
                   /\ Node.connected_at (Eff.state r) node = true)
  /\ (Eff.exit r = Returned (Some Node.ErrNoBootstrapConnection) ->
      forall a, Node.connected_at (Eff.state r) a = Node.connected_at nm a)
  /\ Node.same_config nm (Eff.state r)
  /\ Node.keeps_connections nm (Eff.state r)
  /\ Node.dials_only (Node.bootstrapNodes nm) (Node.serverAddress nm)
       (Eff.events r).
Proof.
  intros r. unfold r, Node.Bootstrap. rewrite bind_get.
  destruct (Node.bootstrapNodes nm) as [|node rest] eqn:Hnodes.
  - cbn. split; [reflexivity|]. split; [eauto|].
    split; [discriminate|]. split; [discriminate|].
    split; [apply same_config_refl|]. split; [apply keeps_connections_refl|].
    apply dials_only_nil.
  - change (len (node :: rest) =? 0) with false. cbv iota.
    destruct (bootstrap_loop_spec env (node :: rest) 0%nat 0 nm)
      as (c & nm' & evs & Hrun & Hc & Hcfg & Hkeep & Hev & Hsame & Hmore).
    rewrite (bind_returned _ _ _ _ _ _ Hrun).
    split; [discriminate|].
    destruct (Z.eqb_spec c 0) as [Hzero|Hpos]; cbn [Eff.ret Eff.exit
      Eff.state Eff.events]; rewrite app_nil_r.
    + split; [eauto|]. split; [discriminate|].
      split; [intros _; apply Hsame; exact Hzero|]. auto.
    + split; [eauto|]. split; [intros _; apply Hmore; lia|].
      split; [discriminate|]. auto.
Qed.

Section Discovery.
Import Eff Node.

Lemma GetConnectedPeers_length (nm : NodeManager)
    (order : list (string * Peer)) :
  order ≡ₚ map_to_list (peers nm) ->
  len (GetConnectedPeers order) = getConnectedPeerCount nm.
Proof.
  intros Hperm. unfold GetConnectedPeers, getConnectedPeerCount, len.
  rewrite length_map. f_equal.
  apply filter_length_Permutation. exact Hperm.
Qed.


End Discovery.



Section PeerTableCalls.
Import Eff Node.

Lemma fold_delete_lookup_peers (keys : list string) (ps : gmap string Peer)
    (a : string) :
  fold_left (fun m address => delete address m) keys ps !! a
  = if decide (a ∈ keys) then None else ps !! a.
Proof.
  revert ps. induction keys as [|k keys IH]; intros ps; simpl.
  - destruct (decide (a ∈ [])) as [Hin|_]; [|reflexivity].
    apply elem_of_nil in Hin. contradiction.
  - rewrite IH.
    destruct (decide (a ∈ keys)) as [Hin|Hnotin].
    + rewrite decide_True by (apply elem_of_cons; auto). reflexivity.
    + destruct (decide (a = k)) as [->|Hne].
      * rewrite lookup_delete_eq.
        rewrite decide_True by (apply elem_of_cons; auto). reflexivity.
      * rewrite lookup_delete_ne by congruence.
        rewrite decide_False; [reflexivity|].
        intros Hin. apply elem_of_cons in Hin. tauto.
Qed.

Lemma GetConnectedPeers_elem (nm : NodeManager)
    (order : list (string * Peer)) (peer : Peer) :
  order ≡ₚ map_to_list (peers nm) ->
  peer ∈ GetConnectedPeers order ->
  is_connected peer = true /\ exists a, peers nm !! a = Some peer.
Proof.
  intros Hperm Hin. unfold GetConnectedPeers in Hin.
  apply list_elem_of_fmap in Hin. destruct Hin as ([a p] & -> & Hin).
  apply list_elem_of_In, filter_In in Hin. destruct Hin as [Hin Hconn].
  split; [exact Hconn|]. exists a.
  apply list_elem_of_In in Hin. rewrite Hperm in Hin.
  apply elem_of_map_to_list in Hin. exact Hin.
Qed.

End PeerTableCalls.

(** X14.  [AddPeer] returns without sending anything.  It leaves the
    table exactly as it was when the address is the node's own or is
    already in the table; otherwise it adds a Disconnected entry for
    the address and touches no other entry.  In no case does it change
    which peers count as connected. *)
Theorem AddPeer_effect (nm : Node.NodeManager) (address : string) (now : Z) :
  let r := Node.AddPeer address now nm in
  Eff.exit r = Returned tt
  /\ Eff.events r = []
  /\ (address = Node.serverAddress nm \/ is_Some (Node.peers nm !! address) ->
      Eff.state r = nm)
  /\ (address <> Node.serverAddress nm ->
      Node.peers nm !! address = None ->
      Node.peers (Eff.state r) !! address
      = Some (Node.new_peer address now Node.PeerStatusDisconnected false)
      /\ forall a, a <> address ->
                   Node.peers (Eff.state r) !! a = Node.peers nm !! a)
  /\ forall a, Node.connected_at (Eff.state r) a = Node.connected_at nm a.
Proof.
  intros r. unfold r, Node.AddPeer. rewrite bind_get.
  destruct (String.eqb_spec address (Node.serverAddress nm)) as [Hself|Hother].
  - cbn. repeat split; try reflexivity; intros; congruence.
  - destruct (Node.peers nm !! address) as [peer|] eqn:Hpeer.
    + cbn. repeat split; try reflexivity; intros; congruence.
    + cbn [Eff.modify Eff.exit Eff.state Eff.events].
      split; [reflexivity|]. split; [reflexivity|]. split.
      { intros [Hself | [x Hx]]; [contradiction | discriminate]. }
      split.
      { intros _ _. simpl. rewrite lookup_insert_eq. split; [reflexivity|].
        intros a Ha. rewrite lookup_insert_ne by congruence. reflexivity. }
      intros a. rewrite connected_at_insert.
      destruct (decide (a = address)) as [->|]; [|reflexivity].
      unfold Node.connected_at. rewrite Hpeer. reflexivity.
Qed.

(** X15.  [maintainPeers] at time [now] returns without sending
    anything and removes exactly the peers that are not banned and were
    last seen more than five minutes before [now]; a banned peer stays
    however long ago it was seen, and every peer that stays is
    unchanged. *)
Theorem maintainPeers_effect (nm : Node.NodeManager) (now : Z) :
  let r := Node.maintainPeers now nm in
  Eff.exit r = Returned tt
  /\ Eff.events r = []
  /\ (forall a,
        Node.peers (Eff.state r) !! a
        = match Node.peers nm !! a with
          | Some peer =>
              if (now - Node.LastSeen peer >? 5 * minute)
                 && negb (Node.status_eqb (Node.Status peer)
                            Node.PeerStatusBanned)
              then None else Some peer
          | None => None
          end)
  /\ forall a peer,
       Node.peers nm !! a = Some peer ->
       Node.Status peer = Node.PeerStatusBanned ->
       Node.peers (Eff.state r) !! a = Some peer.
Proof.
  intros r. unfold r, Node.maintainPeers. rewrite bind_get.
  cbn [Eff.modify Eff.exit Eff.state Eff.events].
  assert (Hlook : forall a,
             Node.peers
               (Node.set_peers
                  (fun ps =>
                     fold_left (fun m address => delete address m)
                       (map fst (List.filter (Node.stale now)
                                   (map_to_list (Node.peers nm)))) ps) nm)
               !! a
             = match Node.peers nm !! a with
               | Some peer =>
                   if (now - Node.LastSeen peer >? 5 * minute)
                      && negb (Node.status_eqb (Node.Status peer)
                                 Node.PeerStatusBanned)
                   then None else Some peer
               | None => None
               end).
  { intros a. simpl. rewrite fold_delete_lookup_peers.
    set (keys := map fst _).
    destruct (Node.peers nm !! a) as [peer|] eqn:Hpeer.
    - destruct ((now - Node.LastSeen peer >? 5 * minute)
                && negb (Node.status_eqb (Node.Status peer)
                           Node.PeerStatusBanned)) eqn:Hstale.
      + rewrite decide_True; [reflexivity|].
        apply list_elem_of_fmap. exists (a, peer). split; [reflexivity|].
        apply list_elem_of_In, filter_In. split; [|exact Hstale].
        apply list_elem_of_In, elem_of_map_to_list. exact Hpeer.
      + rewrite decide_False; [reflexivity|].
        intros Hin. apply list_elem_of_fmap in Hin.
        destruct Hin as ([a' p'] & Hfst & Hin). simpl in Hfst. subst a'.
        apply list_elem_of_In, filter_In in Hin. destruct Hin as [Hin Hst].
        apply list_elem_of_In, elem_of_map_to_list in Hin.
        rewrite Hpeer in Hin. inversion Hin. subst p'.
        unfold Node.stale in Hst. simpl in Hst. congruence.
    - destruct (decide (a ∈ keys)); reflexivity. }
  split; [reflexivity|]. split; [reflexivity|]. split; [exact Hlook|].
  intros a peer Hpeer Hbanned. rewrite Hlook, Hpeer, Hbanned.
  simpl. rewrite andb_false_r. reflexivity.
Qed.

(** X16.  [GetBestPeers] with a negative limit panics on
    [bestPeers[:limit]], whatever the table holds.  With a limit of 0 or
    more it returns the lesser of [limit] and the connected count many
    peers, every one a connected peer of the table, taken in the order
    the runtime ranges over the table: no ranking by height takes
    place. *)
Theorem GetBestPeers_returns (nm : Node.NodeManager) (limit : Z)
    (order : list (string * Node.Peer)) :
  order ≡ₚ map_to_list (Node.peers nm) ->
  (limit < 0 ->
   Node.GetBestPeers limit order = Panicked "slice bounds out of range")
  /\ (0 <= limit ->
      exists best,
        Node.GetBestPeers limit order = Returned best
        /\ best = take (Z.to_nat limit) (Node.GetConnectedPeers order)
        /\ len best = Z.min limit (Node.getConnectedPeerCount nm)
        /\ forall peer, peer ∈ best ->
             Node.is_connected peer = true
             /\ exists a, Node.peers nm !! a = Some peer).
Proof.
  intros Hperm. unfold Node.GetBestPeers.
  pose proof (GetConnectedPeers_length nm order Hperm) as Hlen.
  split.
  - intros Hneg.
    destruct (Z.gtb_spec (len (Node.GetConnectedPeers order)) limit)
      as [_|Hle]; [|unfold len in Hle; lia].
    destruct (Z.ltb_spec limit 0); [reflexivity | lia].
  - intros Hpos.
    assert (Helem : forall peer,
               peer ∈ take (Z.to_nat limit) (Node.GetConnectedPeers order) ->
               Node.is_connected peer = true
               /\ exists a, Node.peers nm !! a = Some peer).
    { intros peer Hin. apply (GetConnectedPeers_elem nm order peer Hperm).
      eapply subseteq_take. exact Hin. }
    destruct (Z.gtb_spec (len (Node.GetConnectedPeers order)) limit)
      as [Hcut|Hall].
    + destruct (Z.ltb_spec limit 0); [lia|].
      eexists. split; [reflexivity|]. split; [reflexivity|].
      split; [|exact Helem].
      unfold len in *. rewrite length_take. lia.
    + eexists. split; [reflexivity|].
      assert (Htake : take (Z.to_nat limit) (Node.GetConnectedPeers order)
                      = Node.GetConnectedPeers order).
      { apply take_ge. unfold len in Hall. lia. }
      split; [symmetry; exact Htake|]. split; [lia|].
      rewrite <- Htake. exact Helem.
Qed.

Lemma GetBestPeers_returns_witness :
  let nm := Node.after_handshakes Node.nine_addresses
              (Node.NewNodeManager "localhost:3000") in
  let order := map_to_list (Node.peers nm) in
  Node.GetBestPeers (-1) order = Panicked "slice bounds out of range"
  /\ exists best, Node.GetBestPeers 3 order = Returned best /\ len best = 3.
Proof.
  intros nm order.
  destruct (GetBestPeers_returns nm (-1) order (reflexivity _)) as [Hneg _].
  destruct (GetBestPeers_returns nm 3 order (reflexivity _)) as [_ Hpos].
  split; [apply Hneg; lia|].
  destruct Hpos as (best & Hrun & _ & Hlen & _); [lia|].
  exists best. split; [exact Hrun|]. rewrite Hlen. vm_compute. reflexivity.
Defined.

(** X17.  After [AddBootstrapNode] the node is in the list of bootstrap
    nodes.  A node already in the list is not added again (the manager
    is left exactly as it was); a new node is appended at the end.  A
    list without repetitions stays without repetitions, and the peer
    table is not touched. *)
Theorem AddBootstrapNode_effect (nm : Node.NodeManager) (node : string) :
  let r := Node.AddBootstrapNode node nm in
  Eff.exit r = Returned tt
  /\ Eff.events r = []
  /\ node ∈ Node.bootstrapNodes (Eff.state r)
  /\ (node ∈ Node.bootstrapNodes nm -> Eff.state r = nm)
  /\ (node ∉ Node.bootstrapNodes nm ->
      Node.bootstrapNodes (Eff.state r) = Node.bootstrapNodes nm ++ [node])
  /\ (NoDup (Node.bootstrapNodes nm) ->
      NoDup (Node.bootstrapNodes (Eff.state r)))
  /\ Node.peers (Eff.state r) = Node.peers nm.
Proof.
  intros r. unfold r, Node.AddBootstrapNode. rewrite bind_get.
  destruct (existsb (fun existing => String.eqb existing node)
              (Node.bootstrapNodes nm)) eqn:Hex.
  - apply existsb_exists in Hex. destruct Hex as (x & Hin & Heq).
    apply String.eqb_eq in Heq. subst x. apply list_elem_of_In in Hin.
    cbn. repeat split; auto. intros Hnotin. contradiction.
  - assert (Hnotin : node ∉ Node.bootstrapNodes nm).
    { intros Hin. apply list_elem_of_In in Hin.
      assert (Htrue : existsb (fun existing => String.eqb existing node)
                        (Node.bootstrapNodes nm) = true).
      { apply existsb_exists. exists node. split; [exact Hin|].
        apply String.eqb_refl. }
      congruence. }
    cbn. split; [reflexivity|]. split; [reflexivity|]. split.
    { apply elem_of_app. right. apply list_elem_of_singleton. reflexivity. }
    split; [intros Hin; contradiction|]. split; [reflexivity|].
    split; [|reflexivity].
    intros Hnodup. apply NoDup_app. split; [exact Hnodup|]. split.
    + intros x Hx Hx'. apply list_elem_of_singleton in Hx'. subst x.
      contradiction.
    + apply NoDup_singleton.
Qed.

(** X18.  [pingPeer] sends exactly one ping carrying the node's own
    address to the peer.  When the send succeeds the table is left as it
    was.  When it fails the peer, if known, is marked Disconnected
    whatever its status was (a Banned status included), no peer is added,
    every other entry is unchanged, and the peer no longer counts as
    connected. *)
Theorem pingPeer_effect (nm : Node.NodeManager) (address : string)
    (sent : option error) :
  let r := Node.pingPeer address sent nm in
  Eff.exit r = Returned tt
  /\ Eff.events r
     = [Protocol.SendMessage address Protocol.CmdPing
          (Protocol.PPing
             {| Protocol.pAddrFrom := Node.serverAddress nm |})]
  /\ (sent = None -> Eff.state r = nm)
  /\ (sent <> None ->
      Node.connected_at (Eff.state r) address = false
      /\ Node.status_of (Eff.state r) address
         = (fun _ => Node.PeerStatusDisconnected) <$> Node.peers nm !! address
      /\ forall a, a <> address ->
                   Node.peers (Eff.state r) !! a = Node.peers nm !! a).
Proof.
  intros r. unfold r, Node.pingPeer. rewrite bind_get, bind_emit.
  destruct sent as [err|]; cbn.
  - split; [reflexivity|]. split; [reflexivity|].
    split; [discriminate|]. intros _.
    unfold Node.connected_at, Node.status_of. simpl.
    rewrite lookup_alter_eq.
    destruct (Node.peers nm !! address) as [peer|]; simpl.
    + repeat split. intros a Ha. rewrite lookup_alter_ne by congruence.
      reflexivity.
    + repeat split. intros a Ha. rewrite lookup_alter_ne by congruence.
      reflexivity.
  - split; [reflexivity|]. split; [reflexivity|]. split; [reflexivity|].
    intros Hne. contradiction Hne. reflexivity.
Qed.

(** X19.  [BanPeer] returns without sending anything.  Banning an
    address that is not in the table is a silent no-op: nothing is
    recorded and [IsPeerBanned] stays false for it.  Banning a known
    peer makes [IsPeerBanned] true for it and stops it from counting as
    connected; every other entry is unchanged. *)
Theorem BanPeer_effect (nm : Node.NodeManager) (address reason : string) :
  let r := Node.BanPeer address reason nm in
  Eff.exit r = Returned tt
  /\ Eff.events r = []
  /\ (Node.peers nm !! address = None ->
      Eff.state r = nm /\ Node.IsPeerBanned (Eff.state r) address = false)
  /\ (is_Some (Node.peers nm !! address) ->
      Node.IsPeerBanned (Eff.state r) address = true)
  /\ Node.connected_at (Eff.state r) address = false
  /\ forall a, a <> address ->
               Node.peers (Eff.state r) !! a = Node.peers nm !! a.
Proof.
  intros r. unfold r, Node.BanPeer.
  cbn [Eff.modify Eff.exit Eff.state Eff.events].
  split; [reflexivity|]. split; [reflexivity|]. split.
  { intros Hnone. split.
    - unfold Node.set_peers. destruct nm as [self ps boot maxp run].
      cbn in *. f_equal. apply map_eq. intros a.
      destruct (decide (a = address)) as [->|Hne].
      + rewrite lookup_alter_eq, Hnone. reflexivity.
      + rewrite lookup_alter_ne by congruence. reflexivity.
    - unfold Node.IsPeerBanned. simpl.
      rewrite lookup_alter_eq, Hnone. reflexivity. }
  split.
  { intros [peer Hpeer]. unfold Node.IsPeerBanned. simpl.
    rewrite lookup_alter_eq, Hpeer. reflexivity. }
  split.
  { unfold Node.connected_at. simpl. rewrite lookup_alter_eq.
    destruct (Node.peers nm !! address); reflexivity. }
  intros a Ha. simpl. rewrite lookup_alter_ne by congruence. reflexivity.
Qed.

(** ** More on the handlers *)

Section VersionBookkeeping.
Import Eff Server.

(** The server after [HandleVersion]: the sender is made a known node,
    then its peer entry is refreshed. *)
Lemma HandleVersion_state (s : Server) (versionData : Protocol.VersionData)
    (now : Z) :
  let addrFrom := Protocol.vAddrFrom versionData in
  let s1 := if NodeIsKnown s addrFrom then s
            else set_KnownNodes (insert addrFrom true) s in
  state (HandleVersion versionData now s)
  = state (on_NodeManager
             (Node.UpdatePeerInfo addrFrom (Protocol.BestHeight versionData)
                (Protocol.Version versionData) now) s1).
Proof.
  intros addrFrom s1. unfold HandleVersion. rewrite bind_get.
  fold addrFrom.
  set (reply :=
         if bestHeight s <? Protocol.BestHeight versionData
         then SendGetBlocks addrFrom
         else if bestHeight s >? Protocol.BestHeight versionData
         then SendVersion addrFrom
         else ret tt).
  assert (Hreply : exists ev,
             reply s = {| exit := Returned tt; state := s; events := ev |}).
  { unfold reply.
    destruct (bestHeight s <? Protocol.BestHeight versionData);
      [|destruct (bestHeight s >? Protocol.BestHeight versionData)];
      eexists; reflexivity. }
  destruct Hreply as (ev & Hrun).
  rewrite (bind_returned _ _ _ _ _ _ Hrun). cbn [state].
  unfold s1. destruct (NodeIsKnown s addrFrom).
  - rewrite bind_ret. reflexivity.
  - rewrite bind_modify. reflexivity.
Qed.

End VersionBookkeeping.

(** X20.  After [HandleVersion] the sender is a known node, and no node
    known before has been forgotten.  If the server has a node manager,
    the sender's peer entry is Connected with the advertised height and
    version and the handler's clock reading as last-seen time, and every
    other peer entry is as before.  The server's address, best height,
    mempool and blocks-in-transit queue are untouched. *)
Theorem HandleVersion_records_sender (s : Server.Server)
    (versionData : Protocol.VersionData) (now : Z) :
  let s' := Eff.state (Server.HandleVersion versionData now s) in
  let addrFrom := Protocol.vAddrFrom versionData in
  Server.NodeIsKnown s' addrFrom = true
  /\ (forall a, Server.NodeIsKnown s a = true ->
                Server.KnownNodes s' !! a = Server.KnownNodes s !! a)
  /\ Server.Address s' = Server.Address s
  /\ Server.bestHeight s' = Server.bestHeight s
  /\ Server.Mempool s' = Server.Mempool s
  /\ Server.blocksInTransit s' = Server.blocksInTransit s
  /\ match Server.NodeManager s with
     | None => Server.NodeManager s' = None
     | Some nm =>
         exists nm' peer,
           Server.NodeManager s' = Some nm'
           /\ Node.peers nm' !! addrFrom = Some peer
           /\ Node.Status peer = Node.PeerStatusConnected
           /\ Node.Connected peer = true
           /\ Node.Height peer = Protocol.BestHeight versionData
           /\ Node.Version peer = Protocol.Version versionData
           /\ Node.LastSeen peer = now
           /\ forall a, a <> addrFrom ->
                        Node.peers nm' !! a = Node.peers nm !! a
     end.
Proof.
  intros s' addrFrom. unfold s'. rewrite HandleVersion_state. fold addrFrom.
  set (s1 := if Server.NodeIsKnown s addrFrom then s
             else Server.set_KnownNodes (insert addrFrom true) s).
  assert (Hknown : Server.NodeIsKnown s1 addrFrom = true
                   /\ (forall a, Server.NodeIsKnown s a = true ->
                          Server.KnownNodes s1 !! a = Server.KnownNodes s !! a)
                   /\ Server.Address s1 = Server.Address s
                   /\ Server.bestHeight s1 = Server.bestHeight s
                   /\ Server.Mempool s1 = Server.Mempool s
                   /\ Server.blocksInTransit s1 = Server.blocksInTransit s
                   /\ Server.NodeManager s1 = Server.NodeManager s).
  { unfold s1. destruct (Server.NodeIsKnown s addrFrom) eqn:Hk.
    - repeat split; auto.
    - repeat split; try reflexivity.
      + unfold Server.NodeIsKnown. simpl. rewrite lookup_insert_eq.
        apply bool_decide_eq_true. eauto.
      + intros a Ha. simpl. rewrite lookup_insert_ne; [reflexivity|].
        intros <-. congruence. }
  destruct Hknown as (Hk & Hold & Ha & Hb & Hm & Hq & Hnm).
  unfold Server.on_NodeManager. rewrite Hnm.
  destruct (Server.NodeManager s) as [nm|].
  - cbn [Eff.state]. repeat split; auto.
    unfold Node.UpdatePeerInfo. rewrite bind_get.
    destruct (Node.peers nm !! addrFrom) as [old|];
      cbn [Eff.modify Eff.state]; eexists _, _;
      (split; [reflexivity|]); simpl; rewrite lookup_insert_eq;
      (split; [reflexivity|]); repeat split;
      intros a Hne; rewrite lookup_insert_ne by congruence; reflexivity.
  - cbn [Eff.ret Eff.state]. rewrite Hnm. repeat split; auto.
Qed.

Section Handshake.
Import Eff Server.

Lemma int32_small (n : Z) : - 2 ^ 31 <= n < 2 ^ 31 -> int32 n = n.
Proof.
  intros Hn. unfold int32. rewrite Z.mod_small by lia. lia.
Qed.

Lemma HandleInv_other_run (s : Server) (invData : Protocol.InvData) :
  Protocol.iType invData <> "block" ->
  HandleInv invData s
  = match Protocol.Items invData with
    | txID :: _ =>
        if String.eqb (Protocol.iType invData) "tx"
        then {| exit := Returned tt; state := s;
                events :=
                  if TransactionExists s txID then []
                  else [Protocol.SendMessage (Protocol.iAddrFrom invData)
                          Protocol.CmdGetData
                          (Protocol.PGetData
                             {| Protocol.gdAddrFrom := Address s;
                                Protocol.gdType := "tx";
                                Protocol.ID := txID |})] |}
        else {| exit := Returned tt; state := s; events := [] |}
    | [] =>
        if String.eqb (Protocol.iType invData) "tx"
        then {| exit := Panicked "index out of range [0] with length 0";
                state := s; events := [] |}
        else {| exit := Returned tt; state := s; events := [] |}
    end.
Proof.
  intros Hblock. unfold HandleInv.
  apply String.eqb_neq in Hblock. rewrite Hblock. rewrite bind_ret.
  destruct (String.eqb (Protocol.iType invData) "tx");
    destruct (Protocol.Items invData) as [|txID rest]; try reflexivity.
  cbn [lookup list_lookup]. rewrite bind_get.
  destruct (TransactionExists s txID); reflexivity.
Qed.

End Handshake.

(** X21.  A version exchange between two nodes whose heights fit 32
    bits ends with the node that is behind asking the other for blocks.
    When [a] announces itself to [b] with [SendVersion]: if [b] is
    behind, [b] answers with a getblocks request to [a]; if [b] is
    ahead, [b] answers with its own version message, and handling that
    message makes [a] send a getblocks request to [b]; if the heights
    are equal, [b] sends nothing. *)
Theorem version_exchange (a b : Server.Server) (now_b now_a : Z) :
  - 2 ^ 31 <= Server.bestHeight a < 2 ^ 31 ->
  - 2 ^ 31 <= Server.bestHeight b < 2 ^ 31 ->
  exists vA,
    Eff.events (Server.SendVersion (Server.Address b) a)
    = [Protocol.SendMessage (Server.Address b) Protocol.CmdVersion
         (Protocol.PVersion vA)]
    /\ (Server.bestHeight b < Server.bestHeight a ->
        Eff.events (Server.HandleVersion vA now_b b)
        = [Protocol.SendMessage (Server.Address a) Protocol.CmdGetBlocks
             (Protocol.PGetBlocks
                {| Protocol.gbAddrFrom := Server.Address b |})])
    /\ (Server.bestHeight b = Server.bestHeight a ->
        Eff.events (Server.HandleVersion vA now_b b) = [])
    /\ (Server.bestHeight a < Server.bestHeight b ->
        exists vB,
          Eff.events (Server.HandleVersion vA now_b b)
          = [Protocol.SendMessage (Server.Address a) Protocol.CmdVersion
               (Protocol.PVersion vB)]
          /\ Eff.events (Server.HandleVersion vB now_a a)
             = [Protocol.SendMessage (Server.Address b)
                  Protocol.CmdGetBlocks
                  (Protocol.PGetBlocks
                     {| Protocol.gbAddrFrom := Server.Address a |})]).
Proof.
  intros Ha Hb.
  exists {| Protocol.Version := 1;
            Protocol.BestHeight := int32 (Server.bestHeight a);
            Protocol.vAddrFrom := Server.Address a |}.
  split; [reflexivity|].
  destruct (HandleVersion_run b
              {| Protocol.Version := 1;
                 Protocol.BestHeight := int32 (Server.bestHeight a);
                 Protocol.vAddrFrom := Server.Address a |} now_b)
    as [_ Hev].
  rewrite Hev. cbn [Protocol.BestHeight Protocol.vAddrFrom].
  rewrite (int32_small _ Ha).
  split; [|split].
  - intros Hlt.
    destruct (Z.ltb_spec (Server.bestHeight b) (Server.bestHeight a));
      [reflexivity | lia].
  - intros Heq.
    destruct (Z.ltb_spec (Server.bestHeight b) (Server.bestHeight a)); [lia|].
    destruct (Z.gtb_spec (Server.bestHeight b) (Server.bestHeight a));
      [lia | reflexivity].
  - intros Hgt.
    exists {| Protocol.Version := 1;
              Protocol.BestHeight := int32 (Server.bestHeight b);
              Protocol.vAddrFrom := Server.Address b |}.
    destruct (Z.ltb_spec (Server.bestHeight b) (Server.bestHeight a)); [lia|].
    destruct (Z.gtb_spec (Server.bestHeight b) (Server.bestHeight a));
      [|lia].
    split; [reflexivity|].
    destruct (HandleVersion_run a
                {| Protocol.Version := 1;
                   Protocol.BestHeight := int32 (Server.bestHeight b);
                   Protocol.vAddrFrom := Server.Address b |} now_a)
      as [_ Hev'].
    rewrite Hev'. cbn [Protocol.BestHeight Protocol.vAddrFrom].
    rewrite (int32_small _ Hb).
    destruct (Z.ltb_spec (Server.bestHeight a) (Server.bestHeight b));
      [reflexivity | lia].
Qed.

Lemma version_exchange_witness :
  let a := Server.NewServer "10.0.0.1:3000" 5 in
  let b := Server.NewServer "10.0.0.2:3000" 10 in
  exists vA vB,
    Eff.events (Server.SendVersion (Server.Address b) a)
    = [Protocol.SendMessage "10.0.0.2:3000" "version" (Protocol.PVersion vA)]
    /\ Eff.events (Server.HandleVersion vA 1 b)
       = [Protocol.SendMessage "10.0.0.1:3000" "version"
            (Protocol.PVersion vB)]
    /\ Eff.events (Server.HandleVersion vB 2 a)
       = [Protocol.SendMessage "10.0.0.2:3000" "getblocks"
            (Protocol.PGetBlocks
               {| Protocol.gbAddrFrom := "10.0.0.1:3000" |})].
Proof.
  intros a b.
  destruct (version_exchange a b 1 2) as (vA & Hsend & _ & _ & Hahead).
  - simpl. lia.
  - simpl. lia.
  - destruct Hahead as (vB & HvB & Hreq); [simpl; lia|].
    exists vA, vB. auto.
Defined.

(** X22.  For an inventory of type "tx" with at least one item,
    [HandleInv] looks at the first item only: it sends one getdata
    request of type "tx" for it to the advertiser when the server's
    mempool does not hold it, and nothing when it does; the further
    items are ignored.  For an inventory whose type is neither "block"
    nor "tx" it does nothing at all, even with no items.  In both cases
    the server's state is unchanged. *)
Theorem HandleInv_tx_or_unknown (s : Server.Server)
    (invData : Protocol.InvData) :
  (forall txID rest,
     Protocol.iType invData = "tx" ->
     Protocol.Items invData = txID :: rest ->
     Server.HandleInv invData s
     = {| Eff.exit := Returned tt;
          Eff.state := s;
          Eff.events :=
            if Server.TransactionExists s txID then []
            else [Protocol.SendMessage (Protocol.iAddrFrom invData)
                    Protocol.CmdGetData
                    (Protocol.PGetData
                       {| Protocol.gdAddrFrom := Server.Address s;
                          Protocol.gdType := "tx";
                          Protocol.ID := txID |})] |})
  /\ (Protocol.iType invData <> "block" ->
      Protocol.iType invData <> "tx" ->
      Server.HandleInv invData s
      = {| Eff.exit := Returned tt; Eff.state := s; Eff.events := [] |}).
Proof.
  split.
  - intros txID rest Htype Hitems.
    rewrite HandleInv_other_run by (rewrite Htype; discriminate).
    rewrite Hitems, Htype. reflexivity.
  - intros Hblock Htx. rewrite HandleInv_other_run by exact Hblock.
    apply String.eqb_neq in Htx. rewrite Htx.
    destruct (Protocol.Items invData); reflexivity.
Qed.

Section BlockDownload.
Import Eff Server.

Lemma request_blocks_from_run (nodes : list string) (s : Server) :
  request_blocks_from nodes s
  = {| exit := Returned tt; state := s;
       events :=
         map (fun node =>
                Protocol.SendMessage node Protocol.CmdGetBlocks
                  (Protocol.PGetBlocks
                     {| Protocol.gbAddrFrom := Address s |}))
           (filter (fun node => node <> Address s) nodes) |}.
Proof.
  induction nodes as [|node nodes IH]; [reflexivity|].
  cbn [request_blocks_from]. rewrite bind_get.
  destruct (String.eqb_spec node (Address s)) as [Hself|Hother].
  - cbn [negb]. rewrite bind_ret, IH.
    rewrite filter_cons_False by tauto. reflexivity.
  - cbn [negb]. unfold SendGetBlocks.
    rewrite filter_cons_True by exact Hother.
    unfold bind at 1. rewrite bind_get. cbn [emit exit state events].
    rewrite IH. reflexivity.
Qed.

Lemma HandleBlock_run (s : Server) (blockData : BlockData)
    (order : list (string * bool)) :
  HandleBlock blockData order s
  = match blocksInTransit s with
    | blockHash :: rest =>
        {| exit := Returned tt; state := set_blocksInTransit rest s;
           events :=
             [Protocol.SendMessage (bAddrFrom blockData) Protocol.CmdGetData
                (Protocol.PGetData
                   {| Protocol.gdAddrFrom := Address s;
                      Protocol.gdType := "block";
                      Protocol.ID := blockHash |})] |}
    | [] =>
        {| exit := Returned tt; state := s;
           events :=
             map (fun node =>
                    Protocol.SendMessage node Protocol.CmdGetBlocks
                      (Protocol.PGetBlocks
                         {| Protocol.gbAddrFrom := Address s |}))
               (filter (fun node => node <> Address s) (map fst order)) |}
    end.
Proof.
  unfold HandleBlock. rewrite bind_get.
  destruct (blocksInTransit s) as [|blockHash rest] eqn:Hqueue.
  - cbn. apply request_blocks_from_run.
  - assert (Hlen : (len (blockHash :: rest) >? 0) = true).
    { unfold len. cbn [length]. apply Z.gtb_lt. lia. }
    rewrite Hlen. reflexivity.
Qed.

Lemma set_blocksInTransit_same (s : Server) :
  set_blocksInTransit (blocksInTransit s) s = s.
Proof. destruct s; reflexivity. Qed.

Lemma handle_blocks_run
    (messages : list (BlockData * list (string * bool))) (s : Server) :
  (length messages <= length (blocksInTransit s))%nat ->
  handle_blocks messages s
  = {| exit := Returned tt;
       state := set_blocksInTransit
                  (drop (length messages) (blocksInTransit s)) s;
       events :=
         zip_with
           (fun message blockHash =>
              Protocol.SendMessage (bAddrFrom (fst message))
                Protocol.CmdGetData
                (Protocol.PGetData
                   {| Protocol.gdAddrFrom := Address s;
                      Protocol.gdType := "block";
                      Protocol.ID := blockHash |}))
           messages (blocksInTransit s) |}.
Proof.
  revert s. induction messages as [|[blockData order] messages IH];
    intros s Hlen.
  - cbn [handle_blocks length zip_with].
    rewrite drop_0, set_blocksInTransit_same. reflexivity.
  - cbn [handle_blocks].
    pose proof (HandleBlock_run s blockData order) as Hrun.
    destruct (blocksInTransit s) as [|blockHash rest] eqn:Hqueue;
      [cbn [length] in Hlen; lia|].
    rewrite (bind_returned _ _ _ _ _ _ Hrun).
    rewrite (IH (set_blocksInTransit rest s))
      by (cbn [blocksInTransit set_blocksInTransit length] in *; lia).
    reflexivity.
Qed.

End BlockDownload.

(** X23.  [HandleBlock] ignores the block it is given and only drives
    the download.  While hashes are in transit it requests the first of
    them from the sender of the block with one getdata message and
    removes it from the queue.  When the queue is empty it sends one
    getblocks request to every known node other than itself, each
    exactly once, and leaves the state as it was.  It always returns. *)
Theorem HandleBlock_effect (s : Server.Server) (blockData : Server.BlockData)
    (order : list (string * bool)) :
  order ≡ₚ map_to_list (Server.KnownNodes s) ->
  (forall blockHash rest,
     Server.blocksInTransit s = blockHash :: rest ->
     Server.HandleBlock blockData order s
     = {| Eff.exit := Returned tt;
          Eff.state := Server.set_blocksInTransit rest s;
          Eff.events :=
            [Protocol.SendMessage (Server.bAddrFrom blockData)
               Protocol.CmdGetData
               (Protocol.PGetData
                  {| Protocol.gdAddrFrom := Server.Address s;
                     Protocol.gdType := "block";
                     Protocol.ID := blockHash |})] |})
  /\ (Server.blocksInTransit s = [] ->
      exists nodes,
        Server.HandleBlock blockData order s
        = {| Eff.exit := Returned tt;
             Eff.state := s;
             Eff.events :=
               map (fun node =>
                      Protocol.SendMessage node Protocol.CmdGetBlocks
                        (Protocol.PGetBlocks
                           {| Protocol.gbAddrFrom := Server.Address s |}))
                 nodes |}
        /\ NoDup nodes
        /\ forall node,
             node ∈ nodes
             <-> Server.NodeIsKnown s node = true
                 /\ node <> Server.Address s).
Proof.
  intros Hperm. split.
  - intros blockHash rest Hqueue.
    rewrite HandleBlock_run, Hqueue. reflexivity.
  - intros Hqueue.
    exists (filter (fun node => node <> Server.Address s) (map fst order)).
    split; [rewrite HandleBlock_run, Hqueue; reflexivity|].
    assert (Hkeys : map fst order ≡ₚ map fst (map_to_list (Server.KnownNodes s)))
      by (apply Permutation_map; exact Hperm).
    split.
    + apply NoDup_filter. rewrite Hkeys.
      apply (NoDup_fst_map_to_list (Server.KnownNodes s)).
    + intros node. rewrite list_elem_of_filter, Hkeys.
      unfold Server.NodeIsKnown. rewrite bool_decide_eq_true.
      split.
      * intros [Hne Hin]. split; [|exact Hne].
        apply list_elem_of_fmap in Hin. destruct Hin as ([k v] & -> & Hin).
        apply elem_of_map_to_list in Hin. eauto.
      * intros [[v Hv] Hne]. split; [exact Hne|].
        apply list_elem_of_fmap. exists (node, v). split; [reflexivity|].
        apply elem_of_map_to_list. exact Hv.
Qed.

Lemma HandleBlock_effect_witness :
  let s := Server.set_KnownNodes
             (fun _ => {[ "10.0.0.1:3000" := true; "10.0.0.2:3000" := true ]})
             (Server.NewServer "10.0.0.1:3000" 0) in
  let blockData := {| Server.bAddrFrom := "10.0.0.2:3000";
                      Server.Block := [x01] |} in
  Eff.events
    (Server.HandleBlock blockData (map_to_list (Server.KnownNodes s))
       (Server.set_blocksInTransit [[x0a]; [x0b]] s))
  = [Protocol.SendMessage "10.0.0.2:3000" "getdata"
       (Protocol.PGetData
          {| Protocol.gdAddrFrom := "10.0.0.1:3000";
             Protocol.gdType := "block";
             Protocol.ID := [x0a] |})].
Proof.
  intros s blockData.
  destruct (HandleBlock_effect (Server.set_blocksInTransit [[x0a]; [x0b]] s)
              blockData (map_to_list (Server.KnownNodes s)))
    as [Hbusy _].
  - reflexivity.
  - rewrite (Hbusy [x0a] [[x0b]]); reflexivity.
Defined.

(** X24.  A block download runs through the advertised hashes in
    order.  After an inventory of type "block" with first hash [h1],
    the queue holds the other hashes that differ from [h1]; every block
    message handled afterwards requests the next hash of the queue from
    the sender of that block message.  So after [n] block messages, [n]
    at most the length of the queue, the requests sent are [h1] and
    then the first [n] hashes of the queue, the queue has lost those
    [n], and [IsSynced] holds exactly when the whole queue has been
    requested. *)
Theorem block_download_sequence (s : Server.Server)
    (invData : Protocol.InvData) (h1 : list byte) (rest : list (list byte))
    (messages : list (Server.BlockData * list (string * bool))) :
  Protocol.iType invData = "block" ->
  Protocol.Items invData = h1 :: rest ->
  (length messages <= length (filter (fun b => b <> h1) rest))%nat ->
  let queue := filter (fun b => b <> h1) rest in
  let r := Eff.bind (Server.HandleInv invData)
             (fun _ => Server.handle_blocks messages) s in
  Eff.exit r = Returned tt
  /\ Eff.events r
     = Protocol.SendMessage (Protocol.iAddrFrom invData) Protocol.CmdGetData
         (Protocol.PGetData
            {| Protocol.gdAddrFrom := Server.Address s;
               Protocol.gdType := "block";
               Protocol.ID := h1 |})
       :: zip_with
            (fun message blockHash =>
               Protocol.SendMessage (Server.bAddrFrom (fst message))
                 Protocol.CmdGetData
                 (Protocol.PGetData
                    {| Protocol.gdAddrFrom := Server.Address s;
                       Protocol.gdType := "block";
                       Protocol.ID := blockHash |}))
            messages queue
  /\ Eff.state r
     = Server.set_blocksInTransit (drop (length messages) queue) s
  /\ Server.IsSynced (Eff.state r)
     = bool_decide (length messages = length queue).
Proof.
  intros Htype Hitems Hlen queue r. unfold r.
  rewrite (bind_returned _ _ _ _ _ _
             (HandleInv_block_run s invData h1 rest Htype Hitems)).
  fold queue. rewrite handle_blocks_run
    by (cbn [Server.blocksInTransit Server.set_blocksInTransit]; exact Hlen).
  cbn [Eff.exit Eff.state Eff.events Server.blocksInTransit
         Server.set_blocksInTransit Server.Address app].
  split; [reflexivity|]. split; [reflexivity|]. split; [reflexivity|].
  unfold Server.IsSynced, len.
  cbn [Server.blocksInTransit Server.set_blocksInTransit].
  rewrite length_drop. fold queue in Hlen.
  destruct (decide (length messages = length queue)) as [Heq|Hne].
  - rewrite bool_decide_eq_true_2 by exact Heq. apply Z.eqb_eq. lia.
  - rewrite bool_decide_eq_false_2 by exact Hne. apply Z.eqb_neq. lia.
Qed.

Lemma block_download_sequence_witness :
  let s := Server.NewServer "10.0.0.1:3000" 0 in
  let invData := {| Protocol.iAddrFrom := "10.0.0.2:3000";
                    Protocol.iType := "block";
                    Protocol.Items := [[x0a]; [x0b]; [x0c]] |} in
  let block := {| Server.bAddrFrom := "10.0.0.2:3000";
                  Server.Block := [x01] |} in
  let r := Eff.bind (Server.HandleInv invData)
             (fun _ => Server.handle_blocks [(block, []); (block, [])]) s in
  map (fun e => match e with
                | Protocol.SendMessage _ _ (Protocol.PGetData d) =>
                    Protocol.ID d
                | _ => []
                end) (Eff.events r)
  = [[x0a]; [x0b]; [x0c]]
  /\ Server.IsSynced (Eff.state r) = true.
Proof.
  intros s invData block r.
  destruct (block_download_sequence s invData [x0a] [[x0b]; [x0c]]
              [(block, []); (block, [])])
    as (_ & Hev & _ & Hsync).
  - reflexivity.
  - reflexivity.
  - vm_compute. lia.
  - fold r in Hev, Hsync. rewrite Hev, Hsync. split; reflexivity.
Defined.

(** X25.  [HandleGetBlocks] answers the requester with exactly one
    inventory of type "block" that lists every hash of the ledger in
    the ledger's order, and changes nothing.  Handling that answer at
    the requester: with an empty ledger on the answering side the
    requester panics on [Items[0]], its queue emptied; otherwise it
    requests the first hash from the answering node and queues the
    other hashes that differ from it. *)
Theorem getblocks_answer_handled (bc : Server.BlockchainInterface)
    (getBlocksData : Protocol.GetBlocksData)
    (answering requester : Server.Server) :
  exists invData,
    Server.HandleGetBlocks bc getBlocksData answering
    = {| Eff.exit := Returned tt;
         Eff.state := answering;
         Eff.events :=
           [Protocol.SendMessage (Protocol.gbAddrFrom getBlocksData)
              Protocol.CmdInv (Protocol.PInv invData)] |}
    /\ Protocol.iType invData = "block"
    /\ Protocol.Items invData = Server.GetBlockHashes bc
    /\ (Server.GetBlockHashes bc = [] ->
        Server.HandleInv invData requester
        = {| Eff.exit := Panicked "index out of range [0] with length 0";
             Eff.state := Server.set_blocksInTransit [] requester;
             Eff.events := [] |})
    /\ (forall h1 rest,
          Server.GetBlockHashes bc = h1 :: rest ->
          Server.HandleInv invData requester
          = {| Eff.exit := Returned tt;
               Eff.state :=
                 Server.set_blocksInTransit
                   (filter (fun b => b <> h1) rest) requester;
               Eff.events :=
                 [Protocol.SendMessage (Server.Address answering)
                    Protocol.CmdGetData
                    (Protocol.PGetData
                       {| Protocol.gdAddrFrom := Server.Address requester;
                          Protocol.gdType := "block";
                          Protocol.ID := h1 |})] |}).
Proof.
  exists {| Protocol.iAddrFrom := Server.Address answering;
            Protocol.iType := "block";
            Protocol.Items := Server.GetBlockHashes bc |}.
  split; [reflexivity|]. split; [reflexivity|]. split; [reflexivity|].
  split.
  - intros Hempty. rewrite HandleInv_empty_run by exact Hempty. reflexivity.
  - intros h1 rest Hhashes.
    apply HandleInv_block_run; [reflexivity | exact Hhashes].
Qed.

(** X26.  The announcement of an admitted transaction is understood by
    [HandleInv].  When [AddTransaction] on a running pool admits a
    transaction with an ID of four bytes or more, the inventory it
    broadcasts makes a receiving server send one getdata request of
    type "tx" for that ID back to the announcing address, unless the
    receiver's own transaction table already has the ID, in which case
    it sends nothing; the receiver's state does not change. *)
Theorem announced_transaction_requested (address : string)
    (mm : Mempool.MempoolManager) (tx : TransactionInterface) (now : Z)
    (order : list (string * Mempool.MempoolTransaction))
    (receiver : Server.Server) :
  Mempool.reachable address mm ->
  Mempool.transactions mm !! sprintf_x (GetID tx) = None ->
  order ≡ₚ map_to_list (Mempool.transactions mm) ->
  (4 <= length (GetID tx))%nat ->
  exists invData,
    Eff.events (Mempool.AddTransaction tx now order mm)
    = [Protocol.BroadcastMessage Protocol.CmdInv (Protocol.PInv invData)]
    /\ Server.HandleInv invData receiver
       = {| Eff.exit := Returned tt;
            Eff.state := receiver;
            Eff.events :=
              if Server.TransactionExists receiver (GetID tx) then []
              else [Protocol.SendMessage address Protocol.CmdGetData
                      (Protocol.PGetData
                         {| Protocol.gdAddrFrom := Server.Address receiver;
                            Protocol.gdType := "tx";
                            Protocol.ID := GetID tx |})] |}.
Proof.
  intros Hreach Hfresh Hperm Hlen.
  destruct (AddTransaction_fresh_outcome address mm tx now order
              Hreach Hfresh Hperm) as (mm1 & _ & _ & Hrun).
  exists {| Protocol.iAddrFrom := address;
            Protocol.iType := "tx";
            Protocol.Items := [GetID tx] |}.
  split.
  - rewrite Hrun. cbn [Eff.events].
    rewrite bool_decide_eq_true_2 by exact Hlen. reflexivity.
  - rewrite HandleInv_other_run by discriminate. reflexivity.
Qed.

Lemma announced_transaction_requested_witness :
  let mm := Mempool.filled "10.0.0.1:3000" 2 in
  let tx := {| GetID := [xde; xad; xbe; xef]; Serialize := [x01] |} in
  let receiver := Server.NewServer "10.0.0.2:3000" 0 in
  exists invData,
    Eff.events (Mempool.AddTransaction tx 7
                  (map_to_list (Mempool.transactions mm)) mm)
    = [Protocol.BroadcastMessage "inv" (Protocol.PInv invData)]
    /\ Eff.events (Server.HandleInv invData receiver)
       = [Protocol.SendMessage "10.0.0.1:3000" "getdata"
            (Protocol.PGetData
               {| Protocol.gdAddrFrom := "10.0.0.2:3000";
                  Protocol.gdType := "tx";
                  Protocol.ID := [xde; xad; xbe; xef] |})].
Proof.
  intros mm tx receiver.
  destruct (announced_transaction_requested "10.0.0.1:3000" mm tx 7
              (map_to_list (Mempool.transactions mm)) receiver)
    as (invData & Hev & Hrun).
  - apply (filled_reachable "10.0.0.1:3000" 2). lia.
  - vm_compute. reflexivity.
  - reflexivity.
  - simpl. lia.
  - exists invData. split; [exact Hev|]. rewrite Hrun. reflexivity.
Defined.

(** ** More on the sync manager *)

Section FirstHighest.
Import Server.


Lemma validate_blocks_spec (bc : BlockchainInterface)
    (blockHashes : list (list byte)) :
  validate_blocks bc blockHashes = true
  <-> forall hash, hash ∈ blockHashes ->
        exists block, GetBlock bc hash = Some block /\ GetHash block <> [].
Proof.
  induction blockHashes as [|hash rest IH]; cbn [validate_blocks].
  - split; [|reflexivity].
    intros _ hash Hin. apply elem_of_nil in Hin. contradiction.
  - destruct (GetBlock bc hash) as [block|] eqn:Hblock.
    + unfold len. destruct (GetHash block) as [|b bs] eqn:Hhash.
      * cbn. split; [discriminate|]. intros Hall.
        destruct (Hall hash) as (block' & Hget & Hne);
          [apply list_elem_of_here|].
        congruence.
      * assert (Hnz : (Z.of_nat (length (b :: bs)) =? 0) = false)
          by (apply Z.eqb_neq; cbn [length]; lia).
        rewrite Hnz, IH. split.
        -- intros Hall h Hin. apply elem_of_cons in Hin.
           destruct Hin as [->|Hin]; [|exact (Hall h Hin)].
           exists block. rewrite Hhash. split; [exact Hblock | discriminate].
        -- intros Hall h Hin. apply Hall. apply list_elem_of_further.
           exact Hin.
    + split; [discriminate|]. intros Hall.
      destruct (Hall hash) as (block' & Hget & _);
        [apply list_elem_of_here|].
      congruence.
Qed.

End FirstHighest.


(** X28.  [ValidateChain] returns true exactly when the ledger can
    produce a block for every hash it lists and each such block reports
    a non-empty hash; an empty ledger validates.  Nothing else is
    checked: the hash a block reports need not be the hash it is listed
    under. *)
Theorem ValidateChain_accepts (bc : Server.BlockchainInterface) :
  (Server.ValidateChain bc = true
   <-> forall hash, hash ∈ Server.GetBlockHashes bc ->
         exists block,
           Server.GetBlock bc hash = Some block
           /\ Server.GetHash block <> [])
  /\ (forall block,
        Server.GetHash block <> [] ->
        Server.ValidateChain
          {| Server.GetBlockHashes := Server.GetBlockHashes bc;
             Server.GetBlock := fun _ => Some block |} = true).
Proof.
  assert (Hiff : forall bc',
             Server.ValidateChain bc' = true
             <-> forall hash, hash ∈ Server.GetBlockHashes bc' ->
                   exists block,
                     Server.GetBlock bc' hash = Some block
                     /\ Server.GetHash block <> []).
  { intros bc'. unfold Server.ValidateChain, len.
    destruct (Server.GetBlockHashes bc') as [|hash rest] eqn:Hhashes.
    - cbn. split; [|reflexivity].
      intros _ hash Hin. apply elem_of_nil in Hin. contradiction.
    - assert (Hnz : (Z.of_nat (length (hash :: rest)) =? 0) = false)
        by (apply Z.eqb_neq; cbn [length]; lia).
      rewrite Hnz. apply validate_blocks_spec. }
  split; [apply Hiff|].
  intros block Hne. apply Hiff. intros hash _. exists block.
  split; [reflexivity | exact Hne].
Qed.
